(** * Background2D: a shallow embedding of [photutils/background/background_2d.py]

    The class [Background2D] estimates a low-resolution background and
    background-RMS mesh over boxes of an image and expands it to the image
    resolution.  This development embeds the constructor pipeline
    ([__init__], [_process_size_input], [_validate_array], [_combine_masks],
    [_prepare_data], [_reshape_data], [_box_npixels_threshold],
    [_get_box_indices], [_select_initial_boxes], [_compute_box_statistics],
    [_make_2d_array], [_interpolate_meshes], [_make_meshes],
    [_selective_filter], [_filter_meshes]) and the lazy properties
    [background] and [background_rms].

    Modelling conventions.
    - A float64 sample is an [option Q]: [None] is NaN, [Some q] a finite
      value.  Arithmetic on finite values is exact (rounding is not modelled).
    - A 2D ndarray is a list of rows; its shape is read off the lists.
    - Shapes, box sizes and indices are [nat]; the integer input of
      [_process_size_input] is a [list Z] as produced by [astype(int)].
    - A Python exception is a value of [exn]; a method that may raise returns
      a [result].
    - Objects shared with the caller (the estimators) live in a [store]
      indexed by references; [__init__] threads the store.
    - Library primitives that no function of this file defines
      ([bottleneck.nanstd], [ShepardIDWInterpolator], scipy's
      [generic_filter]) are fields of [Externals]. *)

From Stdlib Require Import String Bool Arith ZArith QArith Lqa List Lia.
Import ListNotations.
Local Open Scope nat_scope.

Set Implicit Arguments.

(** ** Exceptions and results *)

(** The messages of the [ValueError]s raised in the module. *)
Inductive message : Type :=
| Msg_exclude_percentile
    (* 'exclude_percentile must be between 0 and 100 (inclusive).' *)
| Msg_size_elements
    (* 'box_size and filter_size inputs must have only 1 or 2 elements' *)
| Msg_same_shape (name : string)
    (* 'data and {name} must have the same shape.' *)
| Msg_edge_method
    (* 'edge_method must be "pad" or "crop"' *)
| Msg_all_boxes (threshold percentile : Q)
    (* 'All boxes contain > {0} ({1} percent per box) masked pixels ...' *)
| Msg_unpack
    (* 'too many values to unpack' / 'not enough values to unpack' *)
| Msg_numpy
    (* a shape error raised by numpy itself *).

Inductive exn : Type :=
| ValueError (m : message)
| IndexError
| RuntimeError.

Inductive result (A : Type) : Type :=
| Ok (a : A)
| Raise (e : exn).
Arguments Ok {A} a.
Arguments Raise {A} e.

Definition bind {A B} (r : result A) (k : A -> result B) : result B :=
  match r with
  | Ok a => k a
  | Raise e => Raise e
  end.

Notation "x <- r ;; k" := (bind r (fun x => k))
  (at level 61, r at next level, right associativity).

(** The error kinds of the specification, and the exceptions that carry
    them. *)
Inductive error_kind : Type :=
| ShapeMismatch
| InvalidConfiguration
| InsufficientData
| OtherError.

Definition kind_of (e : exn) : error_kind :=
  match e with
  | ValueError Msg_exclude_percentile => InvalidConfiguration
  | ValueError Msg_size_elements => InvalidConfiguration
  | ValueError Msg_edge_method => InvalidConfiguration
  | ValueError (Msg_same_shape _) => ShapeMismatch
  | ValueError (Msg_all_boxes _ _) => InsufficientData
  | _ => OtherError
  end.

(** ** Samples and arrays *)

Definition value : Type := option Q.
Definition nan : value := None.

Definition isnan (v : value) : bool :=
  match v with
  | None => true
  | Some _ => false
  end.

Definition array2 (A : Type) : Type := list (list A).

Definition shape {A} (a : array2 A) : nat * nat :=
  (length a, length (hd [] a)).

(** [rect h w a]: the array has [h] rows of [w] entries each. *)
Definition rect {A} (h w : nat) (a : array2 A) : Prop :=
  length a = h /\ Forall (fun row => length row = w) a.

Definition get2 {A} (d : A) (a : array2 A) (i j : nat) : A :=
  nth j (nth i a []) d.

Definition shape_eqb (s t : nat * nat) : bool :=
  (fst s =? fst t) && (snd s =? snd t).

(** ** [_process_size_input] *)

(** [np.repeat(array, 2)]. *)
Definition np_repeat2 {A} (l : list A) : list A :=
  flat_map (fun x => [x; x]) l.

(** The length test that raises sits inside the branch that has just
    repeated a one-element array. *)
Definition _process_size_input (array : list Z) : result (list Z) :=
  if length array =? 1 then
    let array := np_repeat2 array in
    if negb (length array =? 2) then Raise (ValueError Msg_size_elements)
    else Ok array
  else Ok array.

(** ** Numeric primitives *)

(** [a > b] on float64: false as soon as one side is NaN. *)
Definition gt (a b : value) : bool :=
  match a, b with
  | Some x, Some y => negb (Qle_bool x y)
  | _, _ => false
  end.

(** The finite entries of a sample, in order. *)
Fixpoint finite (l : list value) : list Q :=
  match l with
  | [] => []
  | Some q :: t => q :: finite t
  | None :: t => finite t
  end.

Fixpoint insert_sorted (x : Q) (l : list Q) : list Q :=
  match l with
  | [] => [x]
  | y :: t => if Qle_bool x y then x :: l else y :: insert_sorted x t
  end.

Definition sort (l : list Q) : list Q := fold_right insert_sorted [] l.

(** The middle of a sorted sample: the middle entry, or the mean of the two
    middle entries; NaN for the empty sample. *)
Definition middle (s : list Q) : value :=
  match length s with
  | 0 => nan
  | n =>
      if Nat.odd n then Some (nth (n / 2) s 0%Q)
      else Some (Qred ((nth (n / 2 - 1) s 0 + nth (n / 2) s 0) / 2)%Q)
  end.

(** [np.median] of a flattened window: NaN when an entry is NaN. *)
Definition np_median (l : list value) : value :=
  if existsb isnan l then nan else middle (sort (finite l)).

(** [bottleneck.nanmedian] / [np.nanmedian] of one row: NaN entries are
    ignored; NaN when nothing is left. *)
Definition nanmedian (l : list value) : value := middle (sort (finite l)).

(** [np.count_nonzero(np.isnan(row))]. *)
Definition count_nan (row : list value) : nat :=
  length (filter isnan row).

(** ** Array primitives *)

(** [np.where(cond)[0]], the positions of the true entries, counted
    from [i]. *)
Fixpoint where_from (i : nat) (cond : list bool) : list nat :=
  match cond with
  | [] => []
  | b :: t => if b then i :: where_from (S i) t else where_from (S i) t
  end.

Definition np_where (cond : list bool) : list nat := where_from 0 cond.

(** [a[idx]] with an integer index array: [IndexError] when an index is out
    of bounds. *)
Fixpoint take_idx {A} (a : list A) (idx : list nat) : result (list A) :=
  match idx with
  | [] => Ok []
  | i :: t =>
      match nth_error a i with
      | None => Raise IndexError
      | Some x => r <- take_idx a t ;; Ok (x :: r)
      end
  end.

(** [a[lo:hi]] for non-negative bounds. *)
Definition slice {A} (lo hi : nat) (l : list A) : list A :=
  firstn (hi - lo) (skipn lo l).

(** [a[y0:y1, x0:x1]]. *)
Definition slice2 {A} (y0 y1 x0 x1 : nat) (a : array2 A) : array2 A :=
  map (slice x0 x1) (slice y0 y1 a).

(** [np.full((h, w), v)]. *)
Definition np_full {A} (h w : nat) (v : A) : array2 A :=
  repeat (repeat v w) h.

(** [a[i] = v] on a list, nothing out of range. *)
Fixpoint set_nth {A} (i : nat) (v : A) (l : list A) : list A :=
  match l, i with
  | [], _ => []
  | _ :: t, 0 => v :: t
  | x :: t, S i' => x :: set_nth i' v t
  end.

(** [a[i, j] = v]. *)
Definition set2 {A} (i j : nat) (v : A) (a : array2 A) : array2 A :=
  set_nth i (set_nth j v (nth i a [])) a.

(** Entrywise combination of two arrays of one shape. *)
Definition map2 {A B C} (f : A -> B -> C) (l : list A) (m : list B) : list C :=
  map (fun p : A * B => f (fst p) (snd p)) (combine l m).

Definition map2_2d {A B C} (f : A -> B -> C) (a : array2 A) (b : array2 B)
  : array2 C :=
  map2 (map2 f) a b.

(** [np.logical_or(m1, m2)] and [m1 |= m2] on arrays of one shape. *)
Definition mask_or (m1 m2 : array2 bool) : array2 bool :=
  map2_2d orb m1 m2.

(** [a[m] = v] with a boolean mask of the shape of [a]. *)
Definition assign_where {A} (a : array2 A) (m : array2 bool) (v : A)
  : array2 A :=
  map2_2d (fun x (b : bool) => if b then v else x) a m.

(** Boolean-mask assignment raises [IndexError] when the shapes differ. *)
Definition np_assign_mask {A} (a : array2 A) (m : array2 bool) (v : A)
  : result (array2 A) :=
  if shape_eqb (shape a) (shape m) then Ok (assign_where a m v)
  else Raise IndexError.

(** [np.pad(a, ((0, py), (0, px)), mode='constant', constant_values=v)]. *)
Definition np_pad {A} (a : array2 A) (py px : nat) (v : A) : array2 A :=
  let w := snd (shape a) in
  map (fun row => row ++ repeat v px) a ++ repeat (repeat v (w + px)) py.

(** [a.reshape(h, w)] of a 1D array: [ValueError] when the size differs. *)
Fixpoint chunks {A} (h w : nat) (l : list A) : array2 A :=
  match h with
  | 0 => []
  | S h' => firstn w l :: chunks h' w (skipn w l)
  end.

Definition reshape2 {A} (h w : nat) (l : list A) : result (array2 A) :=
  if length l =? h * w then Ok (chunks h w l)
  else Raise (ValueError Msg_numpy).

(** [np.unravel_index(idx, (ny, nx))]: [ValueError] for an index outside the
    grid. *)
Fixpoint unravel_index (idx : list nat) (nb : nat * nat)
  : result (list (nat * nat)) :=
  match idx with
  | [] => Ok []
  | k :: t =>
      if k <? fst nb * snd nb then
        r <- unravel_index t nb ;; Ok ((k / snd nb, k mod snd nb) :: r)
      else Raise (ValueError Msg_numpy)
  end.

(** [itertools.product(range(ny), range(nx))]. *)
Definition product_range (ny nx : nat) : list (nat * nat) :=
  flat_map (fun r => map (fun c => (r, c)) (seq 0 nx)) (seq 0 ny).

(** ** Caller-owned objects *)

(** A [SigmaClip] instance, called as [sigma_clip(box_data, axis=1,
    masked=False)]. *)
Definition sigma_clip_fn : Type := array2 value -> array2 value.

(** An estimator object: its [sigma_clip] attribute and its call
    [estimator(box_data, axis=1)], one value per row. *)
Record Estimator : Type := {
  est_sigma_clip : option sigma_clip_fn;
  est_call : array2 value -> list value
}.

(** Estimator objects are shared with the caller: they are held by
    reference. *)
Definition ref : Type := nat.
Definition store : Type := ref -> Estimator.

(** [obj.sigma_clip = v]. *)
Definition setattr_sigma_clip (s : store) (r : ref)
  (v : option sigma_clip_fn) : store :=
  fun r' =>
    if r' =? r then {| est_sigma_clip := v; est_call := est_call (s r') |}
    else s r'.

(** The default arguments [SExtractorBackground(sigma_clip=None)] and
    [StdBackgroundRMS(sigma_clip=None)] are evaluated once, when the class
    body is executed: every call that omits the argument receives the same
    object. *)
Definition default_bkg_estimator : ref := 0.
Definition default_bkgrms_estimator : ref := 1.

(** What the interpolator can read of the object it is handed. *)
Record Geometry : Type := {
  geo_shape : nat * nat;
  geo_box_size : nat * nat;
  geo_nboxes : nat * nat;
  geo_edge_method : string;
  geo_mesh_idx : list (nat * nat)
}.

Definition interpolator_fn : Type := array2 value -> Geometry -> array2 value.

(** Library primitives used but not defined by the class. *)
Record Externals : Type := {
  (* bottleneck.nanstd(row) *)
  nanstd : list value -> value;
  (* ShepardIDWInterpolator(yx, data)(coords, n_neighbors=10, power=1.0,
     eps=0.0, reg=0.0) *)
  shepard_idw : list (nat * nat) -> list value -> list (nat * nat)
                -> list value;
  (* generic_filter(mesh, np.nanmedian, size=(yfs, xfs), mode='constant',
     cval=np.nan) *)
  generic_filter_nanmedian : array2 value -> Z -> Z -> array2 value
}.

(** ** Masks *)

(** [_validate_array] for a mask; the arrays of this model are 2D by
    type. *)
Definition _validate_array {A} (data_shape : nat * nat)
  (array : option (array2 A)) (name : string) : result (option (array2 A)) :=
  match array with
  | None => Ok None
  | Some a =>
      if negb (shape_eqb (shape a) data_shape)
      then Raise (ValueError (Msg_same_shape name))
      else Ok (Some a)
  end.

(** [_combine_masks] returns one of its inputs when the other is absent:
    [total_mask] is then the same object as [mask] or [coverage_mask]. *)
Inductive total_ref : Type :=
| Total_none
| Total_is_mask
| Total_is_coverage
| Total_own (m : array2 bool).

Definition _combine_masks (mask coverage_mask : option (array2 bool))
  : total_ref :=
  match mask, coverage_mask with
  | None, None => Total_none
  | None, Some _ => Total_is_coverage
  | Some _, None => Total_is_mask
  | Some m, Some c => Total_own (mask_or m c)
  end.

Record Masks : Type := {
  m_mask : option (array2 bool);
  m_coverage_mask : option (array2 bool);
  m_total : total_ref
}.

(** The array [self.total_mask] denotes. *)
Definition total_mask (ms : Masks) : option (array2 bool) :=
  match m_total ms with
  | Total_none => None
  | Total_is_mask => m_mask ms
  | Total_is_coverage => m_coverage_mask ms
  | Total_own m => Some m
  end.

(** [self.total_mask |= bad_mask] updates the shared object in place. *)
Definition ior_total (ms : Masks) (bad : array2 bool) : Masks :=
  match m_total ms with
  | Total_none =>
      {| m_mask := m_mask ms; m_coverage_mask := m_coverage_mask ms;
         m_total := Total_own bad |}
  | Total_is_mask =>
      {| m_mask := option_map (fun m => mask_or m bad) (m_mask ms);
         m_coverage_mask := m_coverage_mask ms;
         m_total := Total_is_mask |}
  | Total_is_coverage =>
      {| m_mask := m_mask ms;
         m_coverage_mask :=
           option_map (fun m => mask_or m bad) (m_coverage_mask ms);
         m_total := Total_is_coverage |}
  | Total_own m =>
      {| m_mask := m_mask ms; m_coverage_mask := m_coverage_mask ms;
         m_total := Total_own (mask_or m bad) |}
  end.

(** [_prepare_data]: non-finite samples join the total mask, and every
    masked sample becomes NaN. *)
Definition _prepare_data (data : array2 value) (ms : Masks)
  : array2 value * Masks :=
  let bad_mask := map (map isnan) data in
  let ms := if existsb (existsb id) bad_mask then ior_total ms bad_mask
            else ms in
  match total_mask ms with
  | Some t => (assign_where data t nan, ms)
  | None => (data, ms)
  end.

(** ** Grid partitioning *)

Record Reshaped : Type := {
  r_data : array2 value;      (* the padded or cropped image *)
  r_nboxes : nat * nat;
  r_box_npixels : nat;
  r_nboxes_tot : nat;
  r_box_data : array2 value
}.

(** The samples of box [(r, c)], row-major within the box. *)
Definition box_samples (data : array2 value) (box_size : nat * nat)
  (r c : nat) : list value :=
  flat_map (fun i => slice (c * snd box_size) (c * snd box_size + snd box_size)
                           (nth (r * fst box_size + i) data []))
           (seq 0 (fst box_size)).

(** [np.swapaxes(data.reshape(ny, by, nx, bx), 1, 2).reshape(ntot, npix)]:
    one row per box, boxes enumerated row-major over the grid. *)
Definition box_rows (data : array2 value) (nboxes box_size : nat * nat)
  : array2 value :=
  flat_map (fun r => map (box_samples data box_size r) (seq 0 (snd nboxes)))
           (seq 0 (fst nboxes)).

Definition _reshape_data (data : array2 value) (box_size : nat * nat)
  (edge_method : string) : result Reshaped :=
  let nboxes := (fst (shape data) / fst box_size,
                 snd (shape data) / snd box_size) in
  let extra_size := (fst (shape data) mod fst box_size,
                     snd (shape data) mod snd box_size) in
  dn <-
    (if negb (fst extra_size + snd extra_size =? 0) then
       if String.eqb edge_method "pad" then
         let pad_size := (fst box_size - fst extra_size,
                          snd box_size - snd extra_size) in
         let data := np_pad data (fst pad_size) (snd pad_size) nan in
         Ok (data, (fst (shape data) / fst box_size,
                    snd (shape data) / snd box_size))
       else if String.eqb edge_method "crop" then
         let crop_size := (fst nboxes * fst box_size,
                           snd nboxes * snd box_size) in
         Ok (slice2 0 (fst crop_size) 0 (snd crop_size) data, nboxes)
       else Raise (ValueError Msg_edge_method)
     else Ok (data, nboxes)) ;;
  let data := fst dn in
  let nboxes := snd dn in
  Ok {| r_data := data;
        r_nboxes := nboxes;
        r_box_npixels := fst box_size * snd box_size;
        r_nboxes_tot := fst nboxes * snd nboxes;
        r_box_data := box_rows data nboxes box_size |}.

(** ** Box statistics *)

(** The lazy property [_box_npixels_threshold]. *)
Definition _box_npixels_threshold (exclude_percentile : Q)
  (box_npixels : nat) : Q :=
  let threshold :=
    (exclude_percentile / 100 * inject_Z (Z.of_nat box_npixels))%Q in
  if Qeq_bool exclude_percentile 100 then (threshold + 1)%Q else threshold.

(** [nmasked <= self._box_npixels_threshold] for one box. *)
Definition box_included (exclude_percentile : Q) (box_npixels : nat)
  (row : list value) : bool :=
  Qle_bool (inject_Z (Z.of_nat (count_nan row)))
           (_box_npixels_threshold exclude_percentile box_npixels).

Definition _get_box_indices (box_data : array2 value)
  (exclude_percentile : Q) (box_npixels : nat) : result (list nat) :=
  let box_idx :=
    np_where (map (box_included exclude_percentile box_npixels) box_data) in
  if length box_idx =? 0 then
    Raise (ValueError
             (Msg_all_boxes
                (_box_npixels_threshold exclude_percentile box_npixels)
                exclude_percentile))
  else Ok box_idx.

(** Returns the new [_box_idx] and [_box_data]. *)
Definition _select_initial_boxes (box_data : array2 value)
  (exclude_percentile : Q) (box_npixels : nat)
  : result (list nat * array2 value) :=
  box_idx <- _get_box_indices box_data exclude_percentile box_npixels ;;
  if negb (length box_idx =? length box_data) then
    box_data <- take_idx box_data box_idx ;;
    Ok (box_idx, box_data)
  else Ok (box_idx, box_data).

Record Stats : Type := {
  s_box_idx : list nat;
  s_box_data : array2 value;
  s_bkg1d : list value;
  s_bkgrms1d : list value
}.

(** [_compute_box_statistics].  The estimators held by the object are in
    scope, but the statistics are [bottleneck.nanmedian] and
    [bottleneck.nanstd]; the calls to the estimators are commented out in
    the source. *)
Definition _compute_box_statistics (ext : Externals)
  (sigma_clip : option sigma_clip_fn)
  (bkg_estimator bkgrms_estimator : Estimator)
  (box_idx : list nat) (box_data : array2 value)
  (exclude_percentile : Q) (box_npixels : nat) : result Stats :=
  let box_data :=
    match sigma_clip with
    | Some clip => clip box_data
    | None => box_data
    end in
  idx <- _get_box_indices box_data exclude_percentile box_npixels ;;
  box_idx <- take_idx box_idx idx ;;
  box_data <-
    (if negb (length box_idx =? length box_data) then take_idx box_data idx
     else Ok box_data) ;;
  Ok {| s_box_idx := box_idx;
        s_box_data := box_data;
        s_bkg1d := map nanmedian box_data;
        s_bkgrms1d := map (nanstd ext) box_data |}.

(** ** Mesh assembly *)

(** [data2d[mesh_idx] = data] for index and value arrays of one length. *)
Definition scatter (data2d : array2 value) (mesh_idx : list (nat * nat))
  (data : list value) : array2 value :=
  fold_left (fun a p => set2 (fst (fst p)) (snd (fst p)) (snd p) a)
            (combine mesh_idx data) data2d.

(** [_make_2d_array]: a one-element [data] is broadcast, any other length
    mismatch is a [ValueError] of numpy. *)
Definition _make_2d_array (nboxes : nat * nat) (mesh_idx : list (nat * nat))
  (data : list value) : result (array2 value) :=
  let data2d := np_full (fst nboxes) (snd nboxes) nan in
  if length data =? length mesh_idx then Ok (scatter data2d mesh_idx data)
  else
    match data with
    | [v] => Ok (scatter data2d mesh_idx (repeat v (length mesh_idx)))
    | _ => Raise (ValueError Msg_numpy)
    end.

Definition _interpolate_meshes (ext : Externals) (nboxes : nat * nat)
  (mesh_idx : list (nat * nat)) (data : list value)
  : result (array2 value) :=
  let coords := product_range (fst nboxes) (snd nboxes) in
  let img1d := shepard_idw ext mesh_idx data coords in
  reshape2 (fst nboxes) (snd nboxes) img1d.

Record Meshes : Type := {
  ms_mesh_idx : list (nat * nat);
  ms_background_mesh : array2 value;
  ms_background_rms_mesh : array2 value
}.

Definition _make_meshes (ext : Externals) (nboxes : nat * nat)
  (nboxes_tot : nat) (st : Stats) : result Meshes :=
  mesh_idx <- unravel_index (s_box_idx st) nboxes ;;
  bb <-
    (if length (s_bkg1d st) =? nboxes_tot then
       bkg <- _make_2d_array nboxes mesh_idx (s_bkg1d st) ;;
       bkgrms <- _make_2d_array nboxes mesh_idx (s_bkgrms1d st) ;;
       Ok (bkg, bkgrms)
     else
       bkg <- _interpolate_meshes ext nboxes mesh_idx (s_bkg1d st) ;;
       bkgrms <- _interpolate_meshes ext nboxes mesh_idx (s_bkgrms1d st) ;;
       Ok (bkg, bkgrms)) ;;
  Ok {| ms_mesh_idx := mesh_idx;
        ms_background_mesh := fst bb;
        ms_background_rms_mesh := snd bb |}.

(** ** Mesh filtering *)

(** A Python slice [l[lo:hi]]: a negative bound counts from the end, and
    both bounds are clipped to the list. *)
Definition py_slice {A} (lo hi : Z) (l : list A) : list A :=
  let n := Z.of_nat (length l) in
  let norm := fun x : Z => if (x <? 0)%Z then Z.max (x + n) 0
                           else Z.min x n in
  slice (Z.to_nat (norm lo)) (Z.to_nat (norm hi)) l.

(** The window [data[yidx0:yidx1, xidx0:xidx1]] of cell [(i, j)],
    flattened. *)
Definition window (yfs xfs : Z) (data : array2 value) (i j : nat)
  : list value :=
  let hyfs := (yfs / 2)%Z in
  let hxfs := (xfs / 2)%Z in
  let yidx0 := Z.max (Z.of_nat i - hyfs) 0 in
  let yidx1 := Z.min (Z.of_nat i - hyfs + yfs)
                     (Z.of_nat (fst (shape data))) in
  let xidx0 := Z.max (Z.of_nat j - hxfs) 0 in
  let xidx1 := Z.min (Z.of_nat j - hxfs + xfs)
                     (Z.of_nat (snd (shape data))) in
  concat (map (py_slice xidx0 xidx1) (py_slice yidx0 yidx1 data)).

(** [_selective_filter]: the loop reads [data] and writes [data_out];
    [yfs, xfs = self.filter_size] fails inside the loop when [filter_size]
    has not two elements. *)
Fixpoint selective_loop (filter_size : list Z) (data : array2 value)
  (indices : list (nat * nat)) (data_out : array2 value)
  : result (array2 value) :=
  match indices with
  | [] => Ok data_out
  | (i, j) :: rest =>
      match filter_size with
      | [yfs; xfs] =>
          selective_loop filter_size data rest
            (set2 i j (np_median (window yfs xfs data i j)) data_out)
      | _ => Raise (ValueError Msg_unpack)
      end
  end.

Definition _selective_filter (filter_size : list Z) (data : array2 value)
  (indices : list (nat * nat)) : result (array2 value) :=
  selective_loop filter_size data indices data.

(** [np.nonzero(mesh > threshold)], as coordinate pairs in row-major
    order. *)
Definition nonzero_gt (mesh : array2 value) (threshold : value)
  : list (nat * nat) :=
  concat (map (fun ir : nat * list value =>
                 map (fun j => (fst ir, j))
                     (np_where (map (fun v => gt v threshold) (snd ir))))
              (combine (seq 0 (length mesh)) mesh)).

Definition list_Z_eqb (a b : list Z) : bool :=
  (length a =? length b) && forallb (fun p => Z.eqb (fst p) (snd p))
                                    (combine a b).

(** Returns the new [background_mesh] and [background_rms_mesh]. *)
Definition _filter_meshes (ext : Externals) (filter_size : list Z)
  (filter_threshold : option value)
  (background_mesh background_rms_mesh : array2 value)
  : result (array2 value * array2 value) :=
  if list_Z_eqb filter_size [1; 1]%Z then
    Ok (background_mesh, background_rms_mesh)
  else
    match filter_threshold with
    | None =>
        match filter_size with
        | [yfs; xfs] =>
            Ok (generic_filter_nanmedian ext background_mesh yfs xfs,
                generic_filter_nanmedian ext background_rms_mesh yfs xfs)
        | _ => Raise RuntimeError
        end
    | Some threshold =>
        let indices := nonzero_gt background_mesh threshold in
        bkg <- _selective_filter filter_size background_mesh indices ;;
        bkgrms <- _selective_filter filter_size background_rms_mesh
                                    indices ;;
        Ok (bkg, bkgrms)
    end.

(** ** The object and its constructor *)

(** The arguments of [Background2D(...)].  An estimator argument that is
    left out is [None] and stands for the default object. *)
Record Args : Type := {
  a_data : array2 value;
  a_box_size : list Z;
  a_mask : option (array2 bool);
  a_coverage_mask : option (array2 bool);
  a_fill_value : value;
  a_exclude_percentile : Q;
  a_filter_size : list Z;
  a_filter_threshold : option value;
  a_edge_method : string;
  a_sigma_clip : option sigma_clip_fn;
  a_bkg_estimator : option ref;
  a_bkgrms_estimator : option ref;
  a_interpolator : interpolator_fn
}.

Definition bkg_estimator_of (a : Args) : ref :=
  match a_bkg_estimator a with
  | Some r => r
  | None => default_bkg_estimator
  end.

Definition bkgrms_estimator_of (a : Args) : ref :=
  match a_bkgrms_estimator a with
  | Some r => r
  | None => default_bkgrms_estimator
  end.

(** The attributes of a constructed object. *)
Record Background2D : Type := {
  data : array2 value;
  mask : option (array2 bool);
  coverage_mask : option (array2 bool);
  total : total_ref;
  box_size : nat * nat;
  fill_value : value;
  exclude_percentile : Q;
  filter_size : list Z;
  filter_threshold : option value;
  edge_method : string;
  sigma_clip : option sigma_clip_fn;
  bkg_estimator : ref;
  bkgrms_estimator : ref;
  interpolator : interpolator_fn;
  nboxes : nat * nat;
  box_npixels : nat;
  nboxes_tot : nat;
  _box_data : array2 value;
  _box_idx : list nat;
  _bkg1d : list value;
  _bkgrms1d : list value;
  _mesh_idx : list (nat * nat);
  background_mesh : array2 value;
  background_rms_mesh : array2 value
}.

(** What [__init__] has computed when it reaches the assignments to the
    estimators: the validated masks and the processed sizes. *)
Record Config : Type := {
  c_masks : Masks;
  c_box_size : nat * nat;
  c_filter_size : list Z
}.

(** [box_size[i]] of the processed size array. *)
Definition size_item (l : list Z) (i : nat) : result Z :=
  match nth_error l i with
  | Some z => Ok z
  | None => Raise IndexError
  end.

(** The first part of [__init__], up to [self.sigma_clip = sigma_clip].
    Box sizes are positive integers; the clamped box size is kept as a pair
    of naturals. *)
Definition init_config (a : Args) : result Config :=
  mask <- _validate_array (shape (a_data a)) (a_mask a) "mask" ;;
  coverage_mask <- _validate_array (shape (a_data a)) (a_coverage_mask a)
                                   "coverage_mask" ;;
  let total := _combine_masks mask coverage_mask in
  box_size <- _process_size_input (a_box_size a) ;;
  b0 <- size_item box_size 0 ;;
  b1 <- size_item box_size 1 ;;
  let box_size := (Nat.min (Z.to_nat b0) (fst (shape (a_data a))),
                   Nat.min (Z.to_nat b1) (snd (shape (a_data a)))) in
  if negb (Qle_bool 0 (a_exclude_percentile a))
     || negb (Qle_bool (a_exclude_percentile a) 100)
  then Raise (ValueError Msg_exclude_percentile)
  else
    filter_size <- _process_size_input (a_filter_size a) ;;
    Ok {| c_masks := {| m_mask := mask; m_coverage_mask := coverage_mask;
                        m_total := total |};
          c_box_size := box_size;
          c_filter_size := filter_size |}.

(** The second part of [__init__]: the six stages, run on the store as the
    assignments to the estimators left it. *)
Definition init_stages (ext : Externals) (s : store) (a : Args) (c : Config)
  : result Background2D :=
  let dm := _prepare_data (a_data a) (c_masks c) in
  let data := fst dm in
  let masks := snd dm in
  rs <- _reshape_data data (c_box_size c) (a_edge_method a) ;;
  sel <- _select_initial_boxes (r_box_data rs) (a_exclude_percentile a)
                               (r_box_npixels rs) ;;
  st <- _compute_box_statistics ext (a_sigma_clip a)
          (s (bkg_estimator_of a)) (s (bkgrms_estimator_of a))
          (fst sel) (snd sel) (a_exclude_percentile a) (r_box_npixels rs) ;;
  me <- _make_meshes ext (r_nboxes rs) (r_nboxes_tot rs) st ;;
  fm <- _filter_meshes ext (c_filter_size c) (a_filter_threshold a)
          (ms_background_mesh me) (ms_background_rms_mesh me) ;;
  Ok {| data := data;
        mask := m_mask masks;
        coverage_mask := m_coverage_mask masks;
        total := m_total masks;
        box_size := c_box_size c;
        fill_value := a_fill_value a;
        exclude_percentile := a_exclude_percentile a;
        filter_size := c_filter_size c;
        filter_threshold := a_filter_threshold a;
        edge_method := a_edge_method a;
        sigma_clip := a_sigma_clip a;
        bkg_estimator := bkg_estimator_of a;
        bkgrms_estimator := bkgrms_estimator_of a;
        interpolator := a_interpolator a;
        nboxes := r_nboxes rs;
        box_npixels := r_box_npixels rs;
        nboxes_tot := r_nboxes_tot rs;
        _box_data := s_box_data st;
        _box_idx := s_box_idx st;
        _bkg1d := s_bkg1d st;
        _bkgrms1d := s_bkgrms1d st;
        _mesh_idx := ms_mesh_idx me;
        background_mesh := fst fm;
        background_rms_mesh := snd fm |}.

(** [__init__]: returns the store it leaves behind and the object, or the
    exception raised. *)
Definition __init__ (ext : Externals) (s : store) (a : Args)
  : store * result Background2D :=
  match init_config a with
  | Raise e => (s, Raise e)
  | Ok c =>
      let s := setattr_sigma_clip s (bkg_estimator_of a) None in
      let s := setattr_sigma_clip s (bkgrms_estimator_of a) None in
      (s, init_stages ext s a c)
  end.

(** ** The full-resolution maps *)

Definition geometry (self : Background2D) : Geometry :=
  {| geo_shape := shape (data self);
     geo_box_size := box_size self;
     geo_nboxes := nboxes self;
     geo_edge_method := edge_method self;
     geo_mesh_idx := _mesh_idx self |}.

(** The unit of the data is not modelled: the maps are plain arrays. *)
Definition background (self : Background2D) : result (array2 value) :=
  let bkg := interpolator self (background_mesh self) (geometry self) in
  match coverage_mask self with
  | Some m => np_assign_mask bkg m (fill_value self)
  | None => Ok bkg
  end.

Definition background_rms (self : Background2D) : result (array2 value) :=
  let bkg_rms := interpolator self (background_rms_mesh self)
                              (geometry self) in
  match coverage_mask self with
  | Some m => np_assign_mask bkg_rms m (fill_value self)
  | None => Ok bkg_rms
  end.

(** ** Notions used in the statements *)

(** The linear ids, in ascending order, of the boxes of [rows] whose count
    of missing samples does not exceed the threshold. *)
Definition surviving (exclude_percentile : Q) (box_npixels : nat)
  (rows : array2 value) : list nat :=
  filter (fun k => box_included exclude_percentile box_npixels
                                (nth k rows []))
         (seq 0 (length rows)).

(** The box samples after the optional sigma clipping. *)
Definition clipped (sigma_clip : option sigma_clip_fn)
  (rows : array2 value) : array2 value :=
  match sigma_clip with
  | Some clip => clip rows
  | None => rows
  end.

(** The exception that reports that no box is left. *)
Definition no_box_left (exclude_percentile : Q) (box_npixels : nat) : exn :=
  ValueError (Msg_all_boxes
                (_box_npixels_threshold exclude_percentile box_npixels)
                exclude_percentile).

(** Every mask the object holds has the shape [sh]. *)
Definition masks_shaped (sh : nat * nat) (ms : Masks) : Prop :=
  (forall m, m_mask ms = Some m -> shape m = sh) /\
  (forall m, m_coverage_mask ms = Some m -> shape m = sh) /\
  (forall m, m_total ms = Total_own m -> shape m = sh).

(** The coordinate pair [p] is the cell [(i, j)]. *)
Definition at_cell (i j : nat) (p : nat * nat) : bool :=
  (fst p =? i) && (snd p =? j).

(** The window of the mesh filter along one axis, for a filter size [s] and
    a cell at index [i]: the [s] consecutive indices from [i - s // 2]
    on. *)
Definition in_window (s : Z) (i y : nat) : bool :=
  ((Z.of_nat i - s / 2 <=? Z.of_nat y)
   && (Z.of_nat y <? Z.of_nat i - s / 2 + s))%Z.

(** The window of cell [(i, j)] clipped to the mesh bounds: the values of
    the cells of the mesh that lie in the window along both axes, in
    row-major order; nothing stands for the positions outside the mesh. *)
Definition clipped_window (yfs xfs : Z) (mesh : array2 value) (i j : nat)
  : list value :=
  map (fun p => get2 nan mesh (fst p) (snd p))
      (filter (fun p => in_window yfs i (fst p) && in_window xfs j (snd p))
              (product_range (fst (shape mesh)) (snd (shape mesh)))).

(** ** Concrete inputs

    Small images and argument records on which the definitions above are
    evaluated in the statements below. *)

Module Demo.

Definition v (z : Z) : value := Some (inject_Z z).

(** Row-wise mean of the finite samples, a caller-supplied estimator. *)
Definition row_mean (row : list value) : value :=
  match finite row with
  | [] => nan
  | qs => Some (Qred (fold_right Qplus 0 qs
                      / inject_Z (Z.of_nat (length qs)))%Q)
  end.

(** Row-wise range (max - min) of the finite samples. *)
Definition row_range (row : list value) : value :=
  match sort (finite row) with
  | [] => nan
  | q :: qs => Some (Qred (last qs q - q)%Q)
  end.

(** Some instance of the library primitives, for the statements that need
    one. *)
Definition ext : Externals :=
  {| nanstd := fun _ => Some 0%Q;
     shepard_idw := fun _ _ coords => map (fun _ => Some 7%Q) coords;
     generic_filter_nanmedian := fun a _ _ => a |}.

(** Nearest-box expansion of the mesh to the image shape. *)
Definition interp : interpolator_fn :=
  fun mesh g =>
    map (fun r => map (fun c => get2 nan mesh (r / fst (geo_box_size g))
                                     (c / snd (geo_box_size g)))
                      (seq 0 (snd (geo_shape g))))
        (seq 0 (fst (geo_shape g))).

(** A store whose estimators carry a sigma clip of their own. *)
Definition heap : store :=
  fun r =>
    if r =? 5 then {| est_sigma_clip := Some (fun a => a);
                      est_call := map row_mean |}
    else {| est_sigma_clip := Some (fun a => a);
            est_call := map row_range |}.

(** A 4x4 image; the top-right 2x2 box holds no data. *)
Definition img : array2 value :=
  [[v 1; v 2;  nan;  nan];
   [v 3; v 4;  nan;  nan];
   [v 5; v 6;  v 7;  v 8];
   [v 9; v 10; v 11; v 12]].

(** A 4x4 image without missing samples. *)
Definition img_full : array2 value :=
  [[v 1; v 2;  v 3;  v 3];
   [v 3; v 4;  v 5;  v 9];
   [v 5; v 6;  v 7;  v 8];
   [v 9; v 10; v 11; v 12]].

Definition cover : array2 bool :=
  [[false; false; false; true];
   [false; false; false; true];
   [false; false; false; false];
   [false; false; false; false]].

Definition args (image : array2 value) (box flt : list Z) (pct : Q)
  (edge : string) (cov : option (array2 bool)) (thr : option value)
  : Args :=
  {| a_data := image;
     a_box_size := box;
     a_mask := None;
     a_coverage_mask := cov;
     a_fill_value := v 0;
     a_exclude_percentile := pct;
     a_filter_size := flt;
     a_filter_threshold := thr;
     a_edge_method := edge;
     a_sigma_clip := None;
     a_bkg_estimator := Some 5;
     a_bkgrms_estimator := Some 6;
     a_interpolator := interp |}.

(** A 2x2 image with a single valid sample. *)
Definition img_blank : array2 value :=
  [[nan; nan];
   [nan; v 1]].

(** A 4x5 image: the rows are a multiple of the box size 2, the columns
    are not. *)
Definition img_wide : array2 value :=
  [[v 1; v 2;  v 3;  v 3;  v 1];
   [v 3; v 4;  v 5;  v 9;  v 1];
   [v 5; v 6;  v 7;  v 8;  v 1];
   [v 9; v 10; v 11; v 12; v 1]].

End Demo.

(** * Properties *)

(** The next stage of a chain of binds succeeded, the goal being closed
    when it raises. *)
Ltac ok_stage :=
  match goal with
  | |- context [bind ?r _] => destruct r; cbn [bind]; [|discriminate]
  end.

(** ** Lists of indices *)

Lemma where_from_ge (cond : list bool) :
  forall i k, In k (where_from i cond) -> i <= k < i + length cond.
Proof.
  induction cond as [|b t IH]; simpl; intros i k Hin; [contradiction|].
  destruct b; simpl in Hin.
  - destruct Hin as [<- | Hin]; [lia|]. apply IH in Hin. lia.
  - apply IH in Hin. lia.
Qed.

Lemma where_from_spec (cond : list bool) :
  forall i k,
    In k (where_from i cond) <->
    i <= k /\ nth_error cond (k - i) = Some true.
Proof.
  induction cond as [|b t IH]; simpl; intros i k.
  - split; [contradiction|]. intros [_ H]. destruct (k - i); discriminate.
  - assert (Hrec : In k (where_from (S i) t) <->
                   S i <= k /\ nth_error t (k - S i) = Some true)
      by apply IH.
    destruct (Nat.eq_dec k i) as [->|Hne].
    + rewrite Nat.sub_diag. simpl.
      destruct b; simpl; split; intros H.
      * split; [lia | reflexivity].
      * now left.
      * apply where_from_ge in H. lia.
      * destruct H as [_ H]. discriminate.
    + destruct (Nat.lt_ge_cases k i) as [Hlt|Hge].
      * split.
        -- intros H. assert (In k (where_from (S i) t)) as H'.
           { destruct b; simpl in H; [destruct H as [H|H]; [lia|exact H]
                                     | exact H]. }
           apply where_from_ge in H'. lia.
        -- intros [H _]. lia.
      * replace (k - i) with (S (k - S i)) by lia. simpl.
        destruct b; simpl; rewrite Hrec; split.
        -- intros [H|[H1 H2]]; [lia|]. split; [lia | exact H2].
        -- intros [H1 H2]. right. split; [lia | exact H2].
        -- intros [H1 H2]. split; [lia | exact H2].
        -- intros [H1 H2]. split; [lia | exact H2].
Qed.

Lemma where_from_length (cond : list bool) :
  forall i, length (where_from i cond) <= length cond.
Proof.
  induction cond as [|b t IH]; simpl; intros i; [lia|].
  destruct b; simpl; specialize (IH (S i)); lia.
Qed.

Lemma where_from_full (cond : list bool) :
  forall i, length (where_from i cond) = length cond ->
            where_from i cond = seq i (length cond).
Proof.
  induction cond as [|b t IH]; simpl; intros i Hlen; [reflexivity|].
  destruct b; simpl in Hlen.
  - f_equal. apply IH. lia.
  - pose proof (where_from_length t (S i)). lia.
Qed.

Lemma where_from_all_true (cond : list bool) :
  forall i, where_from i cond = seq i (length cond) ->
            forall b, In b cond -> b = true.
Proof.
  induction cond as [|b t IH]; simpl; intros i Heq c Hin; [contradiction|].
  destruct b.
  - injection Heq as Heq. destruct Hin as [<-|Hin]; [reflexivity|].
    eapply IH; eauto.
  - assert (Hi : In i (where_from (S i) t)) by (rewrite Heq; now left).
    apply where_from_ge in Hi. lia.
Qed.

(** A strictly increasing list of indices. *)
Inductive increasing : list nat -> Prop :=
| incr_nil : increasing []
| incr_cons x l :
    increasing l -> (forall y, In y l -> x < y) -> increasing (x :: l).

Lemma where_from_increasing (cond : list bool) :
  forall i, increasing (where_from i cond).
Proof.
  induction cond as [|b t IH]; simpl; intros i; [constructor|].
  destruct b; [|apply IH].
  constructor; [apply IH|].
  intros y Hy. apply where_from_ge in Hy. lia.
Qed.

(** A strictly increasing list inside [[lo, hi)] has at most [hi - lo]
    entries, and is the whole interval when it has that many. *)
Lemma increasing_bounded (l : list nat) :
  increasing l ->
  forall lo hi, (forall x, In x l -> lo <= x < hi) ->
    length l <= hi - lo /\ (length l = hi - lo -> l = seq lo (hi - lo)).
Proof.
  induction 1 as [|x l Hl IH Hx]; intros lo hi Hb; simpl.
  - split; [lia|]. intros H. now rewrite <- H.
  - assert (Hx' : lo <= x < hi) by (apply Hb; now left).
    destruct (IH (S x) hi) as [Hle Heq].
    { intros y Hy. specialize (Hx y Hy). specialize (Hb y (or_intror Hy)).
      lia. }
    split; [lia|]. intros Hlen.
    assert (x = lo) by lia. subst x.
    replace (hi - lo) with (S (hi - S lo)) by lia. simpl. f_equal.
    apply Heq. lia.
Qed.

(** ** Integer-array indexing *)

Lemma take_idx_ok {A} (a : list A) (idx : list nat) :
  Forall (fun i => i < length a) idx -> exists r, take_idx a idx = Ok r.
Proof.
  induction 1 as [|i t Hi _ [r IH]]; simpl; [now eexists|].
  destruct (nth_error a i) eqn:E.
  - rewrite IH. simpl. now eexists.
  - apply nth_error_None in E. lia.
Qed.

Lemma take_idx_inv {A} (a : list A) (idx : list nat) :
  forall r, take_idx a idx = Ok r ->
    length r = length idx /\
    Forall (fun i => i < length a) idx /\
    forall k d, k < length idx -> nth k r d = nth (nth k idx 0) a d.
Proof.
  induction idx as [|i t IH]; simpl; intros r H.
  - injection H as <-. repeat split; [constructor | intros; lia].
  - destruct (nth_error a i) as [x|] eqn:E; [|discriminate].
    destruct (take_idx a t) as [r'|] eqn:E'; simpl in H; [|discriminate].
    injection H as <-. destruct (IH r' eq_refl) as (Hl & Hf & Hn).
    simpl. repeat split.
    + now rewrite Hl.
    + constructor; [|exact Hf]. apply nth_error_Some. congruence.
    + intros [|k] d Hk.
      * symmetry. now apply nth_error_nth.
      * apply Hn. lia.
Qed.

Lemma take_idx_seq_app {A} (a : list A) :
  forall pre, take_idx (pre ++ a) (seq (length pre) (length a)) = Ok a.
Proof.
  induction a as [|x a IH]; simpl; intros pre; [reflexivity|].
  rewrite nth_error_app2 by lia. rewrite Nat.sub_diag. simpl.
  specialize (IH (pre ++ [x])).
  rewrite <- app_assoc, length_app in IH. simpl in IH.
  rewrite Nat.add_1_r in IH. now rewrite IH.
Qed.

Lemma take_idx_seq {A} (a : list A) :
  take_idx a (seq 0 (length a)) = Ok a.
Proof. exact (take_idx_seq_app a []). Qed.

Lemma take_idx_increasing (a idx : list nat) :
  increasing a -> increasing idx ->
  forall r, take_idx a idx = Ok r -> increasing r.
Proof.
  intros Ha Hidx. induction Hidx as [|i t Ht IH Hi]; simpl; intros r H.
  - injection H as <-. constructor.
  - destruct (nth_error a i) as [x|] eqn:E; [|discriminate].
    destruct (take_idx a t) as [r'|] eqn:E'; simpl in H; [|discriminate].
    injection H as <-. constructor; [now apply IH|].
    intros y Hy.
    destruct (take_idx_inv _ _ E') as (Hl & Hf & Hn).
    destruct (In_nth _ _ 0 Hy) as (k & Hk & <-).
    rewrite Hn by lia.
    assert (Hlt : i < nth k t 0) by (apply Hi, nth_In; lia).
    assert (Hb : nth k t 0 < length a).
    { rewrite Forall_forall in Hf. apply Hf, nth_In. lia. }
    clear -Ha E Hlt Hb.
    revert i x E Hlt Hb. generalize (nth k t 0) as j.
    induction Ha as [|z l Hl IHl Hz]; intros j i x E Hlt Hb.
    + simpl in Hb. lia.
    + destruct i as [|i]; simpl in E.
      * injection E as <-. destruct j as [|j]; [lia|]. simpl.
        apply Hz, nth_In. simpl in Hb. lia.
      * destruct j as [|j]; [lia|]. simpl.
        eapply IHl; eauto; simpl in Hb; lia.
Qed.

Lemma take_idx_in (a idx : list nat) :
  forall r, take_idx a idx = Ok r -> forall y, In y r -> In y a.
Proof.
  intros r H y Hy.
  destruct (take_idx_inv _ _ H) as (Hl & Hf & Hn).
  destruct (In_nth _ _ 0 Hy) as (k & Hk & <-).
  rewrite Hn by lia. apply nth_In.
  rewrite Forall_forall in Hf. apply Hf, nth_In. lia.
Qed.

(** ** Argument processing *)

Lemma process_size_input_total (array : list Z) :
  exists r, _process_size_input array = Ok r.
Proof.
  unfold _process_size_input.
  destruct (length array =? 1) eqn:E; [|now eexists].
  apply Nat.eqb_eq in E.
  destruct array as [|x [|y t]]; try discriminate. simpl. now eexists.
Qed.

(** C3.  The specification requires a size input with neither one nor two
    elements to make construction fail with the 'must have only 1 or 2
    elements' [ValueError].  The code does not: [_process_size_input]
    returns the three element input [(2, 2, 2)] unchanged (it raises on no
    input at all), the constructor called with that box size completes,
    using the first two entries, and so does the constructor called with
    the filter size [(3, 3, 3)] and a filter threshold that no mesh value
    exceeds. *)
Theorem process_size_input_keeps_three_elements :
  _process_size_input [2; 2; 2]%Z = Ok [2; 2; 2]%Z /\
  (forall array e, _process_size_input array <> Raise e) /\
  forall ext s,
    (exists o,
       snd (__init__ ext s
              (Demo.args Demo.img_full [2; 2; 2]%Z [1]%Z 10 "pad" None None))
       = Ok o /\ box_size o = (2, 2) /\ nboxes o = (2, 2)) /\
    (exists o,
       snd (__init__ ext s
              (Demo.args Demo.img_full [2]%Z [3; 3; 3]%Z 10 "pad" None
                         (Some (Demo.v 100))))
       = Ok o /\ filter_size o = [3; 3; 3]%Z).
Proof.
  split; [reflexivity|]. split.
  - intros array e H. destruct (process_size_input_total array) as [r Hr].
    congruence.
  - intros ext s. split.
    + eexists. split; [vm_compute; reflexivity|].
      split; vm_compute; reflexivity.
    + eexists. split; vm_compute; reflexivity.
Qed.

(** ** The exclusion threshold *)

Lemma count_nan_le (row : list value) : count_nan row <= length row.
Proof. unfold count_nan. apply filter_length_le. Qed.

Lemma count_nan_all (row : list value) :
  Forall (fun x => x = nan) row -> count_nan row = length row.
Proof.
  unfold count_nan. induction 1 as [|x l Hx _ IH]; simpl; [reflexivity|].
  subst x. simpl. now rewrite IH.
Qed.

(** Below 100 percent the threshold is smaller than the box, so that a box
    without any valid sample is dropped. *)
Lemma fully_missing_excluded_below_100 (p : Q) (row : list value) :
  (0 <= p)%Q -> (p < 100)%Q -> row <> [] ->
  Forall (fun x => x = nan) row ->
  box_included p (length row) row = false.
Proof.
  intros H0 H1 Hne Hall. unfold box_included, _box_npixels_threshold.
  rewrite (count_nan_all Hall).
  destruct (Qeq_bool p 100) eqn:E.
  - apply Qeq_bool_iff in E. lra.
  - destruct (Qle_bool _ _) eqn:E'; [|reflexivity]. exfalso.
    apply Qle_bool_iff in E'.
    set (n := inject_Z (Z.of_nat (length row))) in *.
    assert (Hn : (1 <= n)%Q).
    { unfold n. change 1%Q with (inject_Z 1). rewrite <- Zle_Qle.
      destruct row; [congruence | simpl; lia]. }
    assert (Eq : (p / 100 * n == n - (1 # 100) * ((100 - p) * n))%Q)
      by field.
    rewrite Eq in E'.
    assert (0 < (100 - p) * n)%Q by (apply Qmult_lt_0_compat; lra).
    lra.
Qed.

(** C1.  The specification requires a box whose samples are all missing to
    be excluded for every percentile, 100 included.  The code does not: at
    [exclude_percentile = 100] the threshold is the box size plus one, the
    test [nmasked <= threshold] holds for every box, and the fully missing
    top-right box of [Demo.img] (linear index 1) is among the surviving
    indices of the constructed object, whose mesh holds NaN at that
    cell. *)
Theorem fully_missing_box_survives_at_100 :
  (forall row, box_included 100 (length row) row = true) /\
  (_box_npixels_threshold 100 4 == 5)%Q /\
  forall ext s, exists o,
    snd (__init__ ext s
           (Demo.args Demo.img [2]%Z [1]%Z 100 "pad" None None)) = Ok o /\
    nth 1 (_box_data o) [] = [nan; nan; nan; nan] /\
    _box_idx o = [0; 1; 2; 3] /\
    get2 (Demo.v 0) (background_mesh o) 0 1 = nan.
Proof.
  split; [|split].
  - intros row. unfold box_included, _box_npixels_threshold.
    change (Qeq_bool 100 100) with true. cbv iota.
    apply Qle_bool_iff.
    assert (H : (inject_Z (Z.of_nat (count_nan row))
                 <= inject_Z (Z.of_nat (length row)))%Q).
    { rewrite <- Zle_Qle. apply inj_le, count_nan_le. }
    set (n := inject_Z (Z.of_nat (length row))) in *.
    assert (E : (100 / 100 * n == n)%Q) by field.
    rewrite E. lra.
  - reflexivity.
  - intros ext s. eexists. split; [vm_compute; reflexivity|].
    split; [vm_compute; reflexivity|].
    split; vm_compute; reflexivity.
Qed.

(** ** The statistics of a box *)

Lemma compute_box_statistics_estimators (ext : Externals)
  (clip : option sigma_clip_fn) (e1 e2 e1' e2' : Estimator)
  (idx : list nat) (bd : array2 value) (p : Q) (n : nat) :
  _compute_box_statistics ext clip e1 e2 idx bd p n =
  _compute_box_statistics ext clip e1' e2' idx bd p n.
Proof. reflexivity. Qed.

(** C2.  The specification requires the background and RMS value of a
    surviving box to be the caller's estimators applied to the samples of
    the box.  In the code the statistics are the NaN-ignoring median and
    standard deviation whatever the estimators are: for [Demo.img_full]
    with a mean estimator and a range estimator, the box of samples 3, 3, 5,
    9 gets background 4 (its median) where the estimator returns 5, and gets
    the [nanstd] of the samples where the RMS estimator returns 6. *)
Theorem box_statistics_bypass_estimators :
  forall ext, exists o,
    snd (__init__ ext Demo.heap
           (Demo.args Demo.img_full [2]%Z [1]%Z 10 "pad" None None)) = Ok o /\
    nth 1 (_box_data o) [] = [Demo.v 3; Demo.v 3; Demo.v 5; Demo.v 9] /\
    _bkg1d o = map nanmedian (_box_data o) /\
    _bkgrms1d o = map (nanstd ext) (_box_data o) /\
    nth 1 (_bkg1d o) nan = Demo.v 4 /\
    nth 1 (est_call (Demo.heap (bkg_estimator o)) (_box_data o)) nan
      = Demo.v 5 /\
    nth 1 (_bkgrms1d o) nan
      = nanstd ext [Demo.v 3; Demo.v 3; Demo.v 5; Demo.v 9] /\
    nth 1 (est_call (Demo.heap (bkgrms_estimator o)) (_box_data o)) nan
      = Demo.v 6.
Proof.
  intros ext. eexists. split; [vm_compute; reflexivity|].
  repeat (split; [vm_compute; reflexivity|]). vm_compute. reflexivity.
Qed.

(** ** Box selection *)

Lemma where_from_filter {A} (f : A -> bool) (d : A) (l : list A) :
  forall i,
    where_from i (map f l) =
    filter (fun k => f (nth (k - i) l d)) (seq i (length l)).
Proof.
  induction l as [|x t IH]; simpl; intros i; [reflexivity|].
  rewrite Nat.sub_diag. rewrite IH.
  assert (E : filter (fun k => f (nth (k - S i) t d)) (seq (S i) (length t))
              = filter (fun k => f match k - i with
                                   | 0 => x
                                   | S m => nth m t d
                                   end) (seq (S i) (length t))).
  { apply filter_ext_in. intros k Hk. apply in_seq in Hk.
    replace (k - i) with (S (k - S i)) by lia. reflexivity. }
  rewrite E. destruct (f x); reflexivity.
Qed.

(** The index array computed by [_get_box_indices] is the list of
    surviving boxes. *)
Lemma np_where_surviving (p : Q) (n : nat) (rows : array2 value) :
  np_where (map (box_included p n) rows) = surviving p n rows.
Proof.
  unfold np_where, surviving. rewrite (where_from_filter _ [] rows 0).
  apply filter_ext. intros k. now rewrite Nat.sub_0_r.
Qed.

Lemma get_box_indices_eq (rows : array2 value) (p : Q) (n : nat) :
  _get_box_indices rows p n =
  match surviving p n rows with
  | [] => Raise (no_box_left p n)
  | _ :: _ => Ok (surviving p n rows)
  end.
Proof.
  unfold _get_box_indices. rewrite np_where_surviving.
  destruct (surviving p n rows); reflexivity.
Qed.

Lemma surviving_increasing (p : Q) (n : nat) (rows : array2 value) :
  increasing (surviving p n rows).
Proof. rewrite <- np_where_surviving. apply where_from_increasing. Qed.

Lemma surviving_lt (p : Q) (n : nat) (rows : array2 value) :
  forall k, In k (surviving p n rows) -> k < length rows.
Proof.
  intros k Hk. unfold surviving in Hk. apply filter_In in Hk.
  destruct Hk as [Hk _]. apply in_seq in Hk. lia.
Qed.

Lemma surviving_all (p : Q) (n : nat) (rows : array2 value) :
  length (surviving p n rows) = length rows ->
  surviving p n rows = seq 0 (length rows).
Proof.
  intros H. rewrite <- np_where_surviving in *. unfold np_where in *.
  rewrite <- (length_map (box_included p n) rows).
  apply where_from_full. now rewrite length_map.
Qed.

(** The first cut: the surviving ids, and their rows. *)
Lemma select_initial_boxes_eq (rows : array2 value) (p : Q) (n : nat) :
  surviving p n rows <> [] ->
  exists kept,
    take_idx rows (surviving p n rows) = Ok kept /\
    _select_initial_boxes rows p n = Ok (surviving p n rows, kept).
Proof.
  intros Hne. unfold _select_initial_boxes. rewrite get_box_indices_eq.
  destruct (surviving p n rows) as [|k0 t] eqn:E; [congruence|].
  rewrite <- E. simpl.
  destruct (length (surviving p n rows) =? length rows) eqn:El; simpl.
  - apply Nat.eqb_eq in El. rewrite (surviving_all _ _ _ El).
    exists rows. rewrite take_idx_seq. split; reflexivity.
  - destruct (@take_idx_ok _ rows (surviving p n rows)) as [kept Hk].
    { apply Forall_forall. apply surviving_lt. }
    exists kept. rewrite Hk. split; reflexivity.
Qed.

Lemma select_initial_boxes_none (rows : array2 value) (p : Q) (n : nat) :
  surviving p n rows = [] ->
  _select_initial_boxes rows p n = Raise (no_box_left p n).
Proof.
  intros E. unfold _select_initial_boxes. rewrite get_box_indices_eq, E.
  reflexivity.
Qed.

Lemma compute_box_statistics_none (ext : Externals)
  (clip : option sigma_clip_fn) (e1 e2 : Estimator) (idx : list nat)
  (rows : array2 value) (p : Q) (n : nat) :
  surviving p n (clipped clip rows) = [] ->
  _compute_box_statistics ext clip e1 e2 idx rows p n
  = Raise (no_box_left p n).
Proof.
  intros E. unfold _compute_box_statistics. fold (clipped clip rows).
  rewrite get_box_indices_eq, E. reflexivity.
Qed.

Lemma compute_box_statistics_some (ext : Externals)
  (clip : option sigma_clip_fn) (e1 e2 : Estimator) (idx : list nat)
  (rows : array2 value) (p : Q) (n : nat) :
  surviving p n (clipped clip rows) <> [] ->
  forall e, _compute_box_statistics ext clip e1 e2 idx rows p n = Raise e ->
            e = IndexError.
Proof.
  intros Hne e. unfold _compute_box_statistics. fold (clipped clip rows).
  rewrite get_box_indices_eq.
  destruct (surviving p n (clipped clip rows)) as [|k0 t] eqn:E;
    [congruence|]. cbn [bind].
  assert (Hraise : forall A (a : list A) ix e',
             take_idx a ix = Raise e' -> e' = IndexError).
  { intros A a ix. induction ix as [|i ix IH]; simpl; intros e' H;
      [discriminate|].
    destruct (nth_error a i); [|congruence].
    destruct (take_idx a ix) eqn:Et; simpl in H; [discriminate|].
    injection H as <-. now apply IH. }
  destruct (take_idx idx (k0 :: t)) as [bi|e'] eqn:E1; cbn [bind].
  - destruct (negb (length bi =? length (clipped clip rows))).
    + destruct (take_idx (clipped clip rows) (k0 :: t)) as [bd|e''] eqn:E2;
        cbn [bind]; intros H; [discriminate|].
      injection H as <-. eapply Hraise; eauto.
    + cbn [bind]. discriminate.
  - intros H. injection H as <-. eapply Hraise; eauto.
Qed.

(** ** Exceptions of the other stages *)

Lemma reshape_data_raise (d : array2 value) (b : nat * nat) (m : string)
  (e : exn) :
  _reshape_data d b m = Raise e -> e = ValueError Msg_edge_method.
Proof.
  unfold _reshape_data.
  destruct (negb _); cbn [bind]; [|discriminate].
  destruct (String.eqb m "pad"); cbn [bind]; [discriminate|].
  destruct (String.eqb m "crop"); cbn [bind]; [discriminate|].
  congruence.
Qed.

Lemma unravel_index_raise (idx : list nat) (nb : nat * nat) (e : exn) :
  unravel_index idx nb = Raise e -> e = ValueError Msg_numpy.
Proof.
  induction idx as [|k t IH]; simpl; [discriminate|].
  destruct (k <? fst nb * snd nb); [|congruence].
  destruct (unravel_index t nb); cbn [bind]; [discriminate|].
  intros H. injection H as <-. now apply IH.
Qed.

Lemma make_2d_array_raise (nb : nat * nat) (mi : list (nat * nat))
  (d : list value) (e : exn) :
  _make_2d_array nb mi d = Raise e -> e = ValueError Msg_numpy.
Proof.
  unfold _make_2d_array. destruct (length d =? length mi); [discriminate|].
  destruct d as [|x [|y t]]; congruence.
Qed.

Lemma interpolate_meshes_raise (ext : Externals) (nb : nat * nat)
  (mi : list (nat * nat)) (d : list value) (e : exn) :
  _interpolate_meshes ext nb mi d = Raise e -> e = ValueError Msg_numpy.
Proof.
  unfold _interpolate_meshes, reshape2. destruct (_ =? _); congruence.
Qed.

Lemma make_meshes_raise (ext : Externals) (nb : nat * nat) (nt : nat)
  (st : Stats) (e : exn) :
  _make_meshes ext nb nt st = Raise e -> e = ValueError Msg_numpy.
Proof.
  unfold _make_meshes.
  destruct (unravel_index (s_box_idx st) nb) as [mi|e'] eqn:E; cbn [bind].
  - destruct (length (s_bkg1d st) =? nt).
    + destruct (_make_2d_array nb mi (s_bkg1d st)) eqn:E1; cbn [bind].
      * destruct (_make_2d_array nb mi (s_bkgrms1d st)) eqn:E2; cbn [bind];
          [discriminate|].
        intros H. injection H as <-. eapply make_2d_array_raise; eauto.
      * intros H. injection H as <-. eapply make_2d_array_raise; eauto.
    + destruct (_interpolate_meshes ext nb mi (s_bkg1d st)) eqn:E1;
        cbn [bind].
      * destruct (_interpolate_meshes ext nb mi (s_bkgrms1d st)) eqn:E2;
          cbn [bind]; [discriminate|].
        intros H. injection H as <-. eapply interpolate_meshes_raise; eauto.
      * intros H. injection H as <-. eapply interpolate_meshes_raise; eauto.
  - intros H. injection H as <-. eapply unravel_index_raise; eauto.
Qed.

Lemma selective_loop_raise (fs : list Z) (d : array2 value)
  (ix : list (nat * nat)) :
  forall out e, selective_loop fs d ix out = Raise e ->
                e = ValueError Msg_unpack.
Proof.
  induction ix as [|[i j] t IH]; simpl; intros out e; [discriminate|].
  destruct fs as [|y [|x [|z fs]]]; try congruence. apply IH.
Qed.

Lemma filter_meshes_raise (ext : Externals) (fs : list Z)
  (thr : option value) (b r : array2 value) (e : exn) :
  _filter_meshes ext fs thr b r = Raise e ->
  e = RuntimeError \/ e = ValueError Msg_unpack.
Proof.
  unfold _filter_meshes. destruct (list_Z_eqb fs [1%Z; 1%Z]);
    [discriminate|].
  destruct thr as [t|].
  - unfold _selective_filter.
    destruct (selective_loop fs b (nonzero_gt b t) b) eqn:E1; cbn [bind].
    + destruct (selective_loop fs r (nonzero_gt b t) r) eqn:E2; cbn [bind];
        [discriminate|].
      intros H. injection H as <-. right.
      eapply selective_loop_raise; eauto.
    + intros H. injection H as <-. right.
      eapply selective_loop_raise; eauto.
  - destruct fs as [|y [|x [|z fs]]]; try discriminate;
      intros H; injection H as <-; now left.
Qed.

(** ** The two exclusion tests *)

(** C5.  When the constructor has processed its arguments and partitioned
    the image: if no box passes the first exclusion test, or no box passes
    the test re-applied to the clipped samples of the boxes kept by the
    first test, construction raises the exception that carries the
    threshold and the percentile, of kind InsufficientData; if a box passes
    each test, no exception of that kind is raised. *)
Theorem insufficient_data_iff_no_box_survives
  (ext : Externals) (s : store) (a : Args) (c : Config) (rs : Reshaped) :
  init_config a = Ok c ->
  _reshape_data (fst (_prepare_data (a_data a) (c_masks c))) (c_box_size c)
                (a_edge_method a) = Ok rs ->
  let p := a_exclude_percentile a in
  let n := r_box_npixels rs in
  let first := surviving p n (r_box_data rs) in
  exists kept,
    take_idx (r_box_data rs) first = Ok kept /\
    let second := surviving p n (clipped (a_sigma_clip a) kept) in
    (first = [] \/ second = [] ->
     snd (__init__ ext s a) = Raise (no_box_left p n)) /\
    (first <> [] -> second <> [] ->
     forall e, snd (__init__ ext s a) = Raise e ->
               kind_of e <> InsufficientData) /\
    no_box_left p n
    = ValueError (Msg_all_boxes (_box_npixels_threshold p n) p) /\
    kind_of (no_box_left p n) = InsufficientData.
Proof.
  intros Hc Hrs. cbv zeta.
  set (p := a_exclude_percentile a). set (n := r_box_npixels rs).
  assert (Hinit : snd (__init__ ext s a)
                  = init_stages ext
                      (setattr_sigma_clip
                         (setattr_sigma_clip s (bkg_estimator_of a) None)
                         (bkgrms_estimator_of a) None) a c).
  { unfold __init__. rewrite Hc. reflexivity. }
  rewrite Hinit. clear Hinit. unfold init_stages. rewrite Hrs. cbn [bind].
  fold p n.
  destruct (surviving p n (r_box_data rs)) as [|k0 t] eqn:Efirst.
  - exists []. split; [reflexivity|].
    split; [|split; [|split; reflexivity]].
    + intros _. rewrite (select_initial_boxes_none _ _ _ Efirst).
      reflexivity.
    + intros H. congruence.
  - destruct (@select_initial_boxes_eq (r_box_data rs) p n)
      as (kept & Hk & Hsel).
    { congruence. }
    rewrite Efirst in Hk, Hsel.
    exists kept. split; [exact Hk|].
    rewrite Hsel. cbn [bind fst snd].
    split; [|split; [|split; reflexivity]].
    + intros [H|H]; [discriminate|].
      rewrite (compute_box_statistics_none _ _ _ _ _ _ _ _ H). reflexivity.
    + intros _ Hne e.
      destruct (_compute_box_statistics ext (a_sigma_clip a) _ _ (k0 :: t)
                  kept p n) as [st|e'] eqn:Est; cbn [bind].
      * destruct (_make_meshes ext (r_nboxes rs) (r_nboxes_tot rs) st)
          as [me|e'] eqn:Eme; cbn [bind].
        -- destruct (_filter_meshes ext (c_filter_size c)
                       (a_filter_threshold a) (ms_background_mesh me)
                       (ms_background_rms_mesh me)) as [fm|e'] eqn:Efm;
             cbn [bind]; [discriminate|].
           intros H. injection H as <-.
           destruct (filter_meshes_raise _ _ _ _ _ Efm) as [-> | ->];
             discriminate.
        -- intros H. injection H as <-.
           rewrite (make_meshes_raise _ _ _ _ Eme). discriminate.
      * intros H. injection H as <-.
        rewrite (compute_box_statistics_some _ _ _ _ _ _ _ _ Hne Est).
        discriminate.
Qed.

(** A blank image: no box passes the first test at 10 percent. *)
Lemma insufficient_data_witness :
  exists c rs,
    init_config (Demo.args Demo.img_blank [2]%Z [1]%Z 10 "pad" None None)
    = Ok c /\
    _reshape_data
      (fst (_prepare_data Demo.img_blank (c_masks c))) (c_box_size c) "pad"
    = Ok rs /\
    snd (__init__ Demo.ext Demo.heap
           (Demo.args Demo.img_blank [2]%Z [1]%Z 10 "pad" None None))
    = Raise (no_box_left 10 4).
Proof.
  eexists. eexists.
  match goal with
  | |- ?H1 /\ ?H2 /\ _ =>
      assert (h1 : H1) by (vm_compute; reflexivity);
      assert (h2 : H2) by (vm_compute; reflexivity)
  end.
  split; [exact h1|]. split; [exact h2|].
  destruct (insufficient_data_iff_no_box_survives
              Demo.ext Demo.heap _ h1 h2) as (kept & _ & Hraise & _).
  apply Hraise. left. vm_compute. reflexivity.
Defined.

(** ** Rectangular arrays *)

Lemma rect_row {A} (h w : nat) (a : array2 A) (i : nat) :
  rect h w a -> i < h -> length (nth i a []) = w.
Proof.
  intros [Hl Hf] Hi. rewrite Forall_forall in Hf. apply Hf, nth_In. lia.
Qed.

Lemma rect_shape {A} (h w : nat) (a : array2 A) :
  rect h w a -> 0 < h -> shape a = (h, w).
Proof.
  intros Hr Hh. unfold shape. destruct Hr as [Hl Hf].
  destruct a as [|r t]; simpl in *; [lia|].
  inversion Hf; subst. reflexivity.
Qed.

Lemma np_pad_rect {A} (h w py px : nat) (a : array2 A) (v : A) :
  rect h w a -> 0 < h -> rect (h + py) (w + px) (np_pad a py px v).
Proof.
  intros Hr Hh. unfold np_pad. rewrite (rect_shape Hr Hh). simpl snd.
  destruct Hr as [Hl Hf]. split.
  - rewrite length_app, length_map, repeat_length. lia.
  - apply Forall_app. split.
    + apply Forall_map. eapply Forall_impl; [|exact Hf].
      intros r Hrw. cbv beta in *. rewrite length_app, repeat_length. lia.
    + apply Forall_forall. intros r Hin. apply repeat_spec in Hin.
      subst r. apply repeat_length.
Qed.

Lemma nth_repeat_lt {A} (v d : A) (n k : nat) :
  k < n -> nth k (repeat v n) d = v.
Proof.
  intros Hk. apply (@repeat_spec _ n v). apply nth_In.
  now rewrite repeat_length.
Qed.

Lemma nth_map_lt {A B} (f : A -> B) (l : list A) (d : A) (d' : B) (k : nat) :
  k < length l -> nth k (map f l) d' = f (nth k l d).
Proof.
  intros Hk. rewrite (nth_indep _ d' (f d)) by now rewrite length_map.
  apply map_nth.
Qed.

(** Padding keeps the samples of the image and fills the new entries. *)
Lemma np_pad_get2 {A} (h w py px : nat) (a : array2 A) (v d : A) (i j : nat) :
  rect h w a -> 0 < h -> i < h + py -> j < w + px ->
  get2 d (np_pad a py px v) i j =
  if (i <? h) && (j <? w) then get2 d a i j else v.
Proof.
  intros Hr Hh Hi Hj. unfold get2, np_pad. rewrite (rect_shape Hr Hh).
  simpl snd. pose proof Hr as [Hl Hf].
  destruct (i <? h) eqn:Ei; simpl.
  - apply Nat.ltb_lt in Ei.
    rewrite app_nth1 by (rewrite length_map; lia).
    rewrite (nth_map_lt _ _ []) by lia.
    pose proof (rect_row Hr Ei) as Hw.
    destruct (j <? w) eqn:Ej.
    + apply Nat.ltb_lt in Ej. apply app_nth1. lia.
    + apply Nat.ltb_ge in Ej. rewrite app_nth2 by lia.
      apply nth_repeat_lt. lia.
  - apply Nat.ltb_ge in Ei.
    rewrite app_nth2 by (rewrite length_map; lia).
    rewrite length_map, Hl.
    rewrite (@nth_repeat_lt _ _ [] py) by lia.
    apply nth_repeat_lt. lia.
Qed.

Lemma slice_0 {A} (n : nat) (l : list A) : slice 0 n l = firstn n l.
Proof. unfold slice. now rewrite Nat.sub_0_r. Qed.

Lemma in_firstn {A} (x : A) (l : list A) :
  forall n, In x (firstn n l) -> In x l.
Proof.
  induction l as [|y t IH]; intros [|n]; simpl; try tauto.
  intros [H|H]; [now left | right; eauto].
Qed.

Lemma crop_rect {A} (h w c0 c1 : nat) (a : array2 A) :
  rect h w a -> c0 <= h -> c1 <= w -> rect c0 c1 (slice2 0 c0 0 c1 a).
Proof.
  intros [Hl Hf] H0 H1. unfold slice2. rewrite slice_0. split.
  - rewrite length_map, length_firstn. lia.
  - apply Forall_map. apply Forall_forall. intros r Hin.
    rewrite slice_0, length_firstn.
    rewrite Forall_forall in Hf. apply in_firstn in Hin.
    rewrite (Hf r Hin). lia.
Qed.

(** Cropping keeps the samples it does not cut. *)
Lemma crop_get2 {A} (h w c0 c1 : nat) (a : array2 A) (d : A) (i j : nat) :
  rect h w a -> c0 <= h -> i < c0 -> j < c1 ->
  get2 d (slice2 0 c0 0 c1 a) i j = get2 d a i j.
Proof.
  intros [Hl Hf] H0 Hi Hj. unfold get2, slice2. rewrite slice_0.
  rewrite (nth_map_lt _ _ []) by (rewrite length_firstn; lia).
  rewrite slice_0, !nth_firstn.
  apply Nat.ltb_lt in Hi, Hj. now rewrite Hi, Hj.
Qed.

Lemma pad_multiple (h b : nat) :
  0 < b -> (h + (b - h mod b)) / b * b = h + (b - h mod b).
Proof.
  intros Hb. pose proof (Nat.div_mod_eq h b) as E.
  pose proof (Nat.mod_upper_bound h b ltac:(lia)) as Hm.
  replace (h + (b - h mod b)) with ((h / b + 1) * b) by nia.
  rewrite Nat.div_mul by lia. reflexivity.
Qed.

Lemma crop_multiple (h b : nat) :
  0 < b -> h / b * b <= h < h / b * b + b.
Proof.
  intros Hb. pose proof (Nat.div_mod_eq h b) as E.
  pose proof (Nat.mod_upper_bound h b ltac:(lia)) as Hm. nia.
Qed.

(** ** Grid partitioning *)

(** C6.  For a rectangular image, a clamped positive box size and either
    edge method, [_reshape_data] succeeds and the grid shape times the box
    size is the shape of the working image.  When the shape is not a
    multiple of the box size: 'pad' appends [box_size - remainder] rows and
    columns of NaN after the image, whose samples keep their place; 'crop'
    keeps the leading rows and columns up to the largest multiple of the
    box size. *)
Theorem reshape_data_grid_covers_working_image
  (data : array2 value) (h w by_ bx : nat) (m : string) :
  rect h w data -> 0 < by_ <= h -> 0 < bx <= w ->
  m = "pad"%string \/ m = "crop"%string ->
  exists rs,
    _reshape_data data (by_, bx) m = Ok rs /\
    rect (fst (r_nboxes rs) * by_) (snd (r_nboxes rs) * bx) (r_data rs) /\
    (h mod by_ = 0 /\ w mod bx = 0 -> r_data rs = data) /\
    (h mod by_ <> 0 \/ w mod bx <> 0 ->
     (m = "pad"%string ->
      rect (h + (by_ - h mod by_)) (w + (bx - w mod bx)) (r_data rs) /\
      forall i j d,
        i < h + (by_ - h mod by_) -> j < w + (bx - w mod bx) ->
        get2 d (r_data rs) i j =
        if (i <? h) && (j <? w) then get2 d data i j else nan) /\
     (m = "crop"%string ->
      rect (h / by_ * by_) (w / bx * bx) (r_data rs) /\
      h / by_ * by_ <= h < h / by_ * by_ + by_ /\
      w / bx * bx <= w < w / bx * bx + bx /\
      forall i j d,
        i < h / by_ * by_ -> j < w / bx * bx ->
        get2 d (r_data rs) i j = get2 d data i j)).
Proof.
  intros Hr Hby Hbx Hm.
  assert (Hh : 0 < h) by lia.
  unfold _reshape_data. rewrite (rect_shape Hr Hh). cbn [fst snd].
  destruct (h mod by_ + w mod bx =? 0) eqn:Eex; cbn [negb bind].
  - apply Nat.eqb_eq in Eex.
    eexists. split; [reflexivity|]. cbn [r_data r_nboxes fst snd].
    split; [|split; [tauto | lia]].
    pose proof (Nat.div_mod_eq h by_). pose proof (Nat.div_mod_eq w bx).
    replace (h / by_ * by_) with h by nia.
    replace (w / bx * bx) with w by nia. exact Hr.
  - apply Nat.eqb_neq in Eex.
    destruct Hm as [-> | ->].
    + cbn [String.eqb Ascii.eqb Bool.eqb bind fst snd].
      pose proof (np_pad_rect (by_ - h mod by_) (bx - w mod bx) nan Hr Hh)
        as Hp.
      rewrite (rect_shape Hp) by lia. cbn [fst snd].
      eexists. split; [reflexivity|]. cbn [r_data r_nboxes fst snd].
      rewrite !pad_multiple by lia.
      split; [exact Hp|]. split; [lia|]. intros _. split.
      * intros _. split; [exact Hp|].
        intros i j d Hi Hj. now apply np_pad_get2.
      * discriminate.
    + cbn [String.eqb Ascii.eqb Bool.eqb bind fst snd].
      pose proof (crop_multiple h (proj1 Hby)) as Hch.
      pose proof (crop_multiple w (proj1 Hbx)) as Hcw.
      pose proof (@crop_rect _ h w (h / by_ * by_) (w / bx * bx) data Hr
                    ltac:(lia) ltac:(lia)) as Hc.
      eexists. split; [reflexivity|]. cbn [r_data r_nboxes fst snd].
      split; [exact Hc|]. split; [lia|]. intros _. split.
      * discriminate.
      * intros _. split; [exact Hc|]. split; [exact Hch|].
        split; [exact Hcw|].
        intros i j d Hi Hj. apply (crop_get2 (h := h) (w := w));
          [exact Hr | lia | exact Hi | exact Hj].
Qed.

Lemma reshape_data_witness :
  rect 4 5 Demo.img_wide /\ 0 < 2 <= 4 /\ 0 < 2 <= 5 /\
  ("pad"%string = "pad"%string \/ "pad"%string = "crop"%string) /\
  exists rs,
    _reshape_data Demo.img_wide (2, 2) "pad" = Ok rs /\
    rect (fst (r_nboxes rs) * 2) (snd (r_nboxes rs) * 2) (r_data rs) /\
    r_nboxes rs = (3, 3).
Proof.
  assert (Hr : rect 4 5 Demo.img_wide)
    by (split; [reflexivity | repeat constructor]).
  split; [exact Hr|]. split; [lia|]. split; [lia|]. split; [now left|].
  destruct (@reshape_data_grid_covers_working_image
              Demo.img_wide 4 5 2 2 "pad" Hr ltac:(lia) ltac:(lia)
              (or_introl eq_refl)) as (rs & Hrs & Hrect & _).
  exists rs. split; [exact Hrs|]. split; [exact Hrect|].
  vm_compute in Hrs. injection Hrs as <-. reflexivity.
Defined.

(** ** Shapes through argument processing and data preparation *)

Lemma shape_eqb_eq (s t : nat * nat) : shape_eqb s t = true <-> s = t.
Proof.
  destruct s as [a b], t as [c d]. unfold shape_eqb. simpl.
  rewrite andb_true_iff, !Nat.eqb_eq. split.
  - intros [-> ->]. reflexivity.
  - intros H. injection H as -> ->. split; reflexivity.
Qed.

Lemma length_map2 {A B C} (f : A -> B -> C) (l : list A) (m : list B) :
  length l = length m -> length (map2 f l m) = length l.
Proof.
  intros H. unfold map2. rewrite length_map, length_combine. lia.
Qed.

Lemma shape_map2_2d {A B C} (f : A -> B -> C) (a : array2 A) (b : array2 B) :
  shape a = shape b -> shape (map2_2d f a b) = shape a.
Proof.
  unfold shape, map2_2d. intros H. injection H as Hl Hw.
  destruct a as [|r t], b as [|r' t']; simpl in *; try discriminate;
    [reflexivity|].
  f_equal.
  - f_equal. fold (map2 (map2 f) t t'). apply length_map2. lia.
  - fold (map2 f r r'). now apply length_map2.
Qed.

Lemma shape_map_map {A B} (f : A -> B) (a : array2 A) :
  shape (map (map f) a) = shape a.
Proof.
  unfold shape. destruct a as [|r t]; simpl; [reflexivity|].
  now rewrite !length_map.
Qed.

Lemma validate_array_inv {A} (sh : nat * nat) (x : option (array2 A))
  (name : string) (y : option (array2 A)) :
  _validate_array sh x name = Ok y ->
  y = x /\ forall m, x = Some m -> shape m = sh.
Proof.
  unfold _validate_array. destruct x as [m|].
  - destruct (shape_eqb (shape m) sh) eqn:E; simpl; [|discriminate].
    intros H. injection H as <-. split; [reflexivity|].
    intros m' Hm. injection Hm as <-. now apply shape_eqb_eq.
  - intros H. injection H as <-. split; [reflexivity | discriminate].
Qed.

(** What a successful argument processing has established. *)
Lemma init_config_inv (a : Args) (c : Config) :
  init_config a = Ok c ->
  c_masks c = {| m_mask := a_mask a;
                 m_coverage_mask := a_coverage_mask a;
                 m_total := _combine_masks (a_mask a) (a_coverage_mask a) |}
  /\ masks_shaped (shape (a_data a)) (c_masks c).
Proof.
  unfold init_config.
  destruct (_validate_array (shape (a_data a)) (a_mask a) "mask")
    as [mk|] eqn:E1; cbn [bind]; [|discriminate].
  destruct (_validate_array (shape (a_data a)) (a_coverage_mask a)
              "coverage_mask") as [cv|] eqn:E2; cbn [bind]; [|discriminate].
  do 3 ok_stage.
  destruct (_ || _); [discriminate|]. ok_stage.
  intros H. injection H as <-. cbn [c_masks].
  apply validate_array_inv in E1, E2.
  destruct E1 as [-> H1], E2 as [-> H2].
  split; [reflexivity|]. unfold masks_shaped. cbn.
  split; [exact H1|]. split; [exact H2|].
  intros m Hm. unfold _combine_masks in Hm.
  destruct (a_mask a) as [mk|], (a_coverage_mask a) as [cv|];
    try discriminate.
  injection Hm as <-. unfold mask_or.
  rewrite shape_map2_2d; [now apply H1|].
  rewrite (H1 _ eq_refl), (H2 _ eq_refl). reflexivity.
Qed.

Lemma ior_total_shaped (sh : nat * nat) (ms : Masks) (bad : array2 bool) :
  masks_shaped sh ms -> shape bad = sh -> masks_shaped sh (ior_total ms bad).
Proof.
  intros (H1 & H2 & H3) Hb. unfold ior_total, masks_shaped.
  destruct (m_total ms) as [| | |m] eqn:Et; cbn.
  - split; [exact H1|]. split; [exact H2|].
    intros m Hm. injection Hm as <-. exact Hb.
  - split; [|split; [exact H2 | discriminate]].
    intros m Hm. destruct (m_mask ms) as [m0|]; [|discriminate].
    injection Hm as <-. unfold mask_or.
    rewrite shape_map2_2d; [now apply H1|]. rewrite (H1 _ eq_refl).
    now rewrite Hb.
  - split; [exact H1|]. split; [|discriminate].
    intros m Hm. destruct (m_coverage_mask ms) as [m0|]; [|discriminate].
    injection Hm as <-. unfold mask_or.
    rewrite shape_map2_2d; [now apply H2|]. rewrite (H2 _ eq_refl).
    now rewrite Hb.
  - split; [exact H1|]. split; [exact H2|].
    intros m' Hm. injection Hm as <-. unfold mask_or.
    rewrite shape_map2_2d; [now apply H3|]. rewrite (H3 _ eq_refl).
    now rewrite Hb.
Qed.

Lemma total_mask_shaped (sh : nat * nat) (ms : Masks) (t : array2 bool) :
  masks_shaped sh ms -> total_mask ms = Some t -> shape t = sh.
Proof.
  intros (H1 & H2 & H3). unfold total_mask.
  destruct (m_total ms) eqn:Et; intros H; try discriminate; auto.
  injection H as <-. auto.
Qed.

Lemma prepare_data_shaped (d : array2 value) (ms : Masks) :
  masks_shaped (shape d) ms ->
  shape (fst (_prepare_data d ms)) = shape d /\
  masks_shaped (shape d) (snd (_prepare_data d ms)).
Proof.
  intros Hms. unfold _prepare_data.
  set (ms' := if existsb (existsb id) (map (map isnan) d)
              then ior_total ms (map (map isnan) d) else ms).
  assert (Hms' : masks_shaped (shape d) ms').
  { unfold ms'. destruct (existsb _ _); [|exact Hms].
    apply ior_total_shaped; [exact Hms | apply shape_map_map]. }
  destruct (total_mask ms') as [t|] eqn:Et; cbn [fst snd].
  - split; [|exact Hms']. unfold assign_where. apply shape_map2_2d.
    symmetry. eapply total_mask_shaped; eauto.
  - split; [reflexivity | exact Hms'].
Qed.

Lemma select_initial_boxes_raise (rows : array2 value) (p : Q) (n : nat)
  (e : exn) :
  _select_initial_boxes rows p n = Raise e -> e = no_box_left p n.
Proof.
  destruct (surviving p n rows) as [|k t] eqn:E.
  - rewrite (select_initial_boxes_none _ _ _ E). congruence.
  - destruct (@select_initial_boxes_eq rows p n) as (kept & _ & H);
      [congruence|].
    rewrite H. discriminate.
Qed.

Lemma compute_box_statistics_raise (ext : Externals)
  (clip : option sigma_clip_fn) (e1 e2 : Estimator) (idx : list nat)
  (rows : array2 value) (p : Q) (n : nat) (e : exn) :
  _compute_box_statistics ext clip e1 e2 idx rows p n = Raise e ->
  e = no_box_left p n \/ e = IndexError.
Proof.
  destruct (surviving p n (clipped clip rows)) as [|k t] eqn:E.
  - rewrite (compute_box_statistics_none _ _ _ _ _ _ _ _ E).
    intros H. left. congruence.
  - intros H. right. eapply compute_box_statistics_some; eauto. congruence.
Qed.

(** The stage that first examines the edge method. *)
Lemma reshape_data_edge_method (d : array2 value) (b : nat * nat)
  (m : string) :
  m <> "pad"%string -> m <> "crop"%string ->
  (fst (shape d) mod fst b <> 0 \/ snd (shape d) mod snd b <> 0 ->
   _reshape_data d b m = Raise (ValueError Msg_edge_method)) /\
  (fst (shape d) mod fst b = 0 /\ snd (shape d) mod snd b = 0 ->
   exists rs, _reshape_data d b m = Ok rs /\ r_data rs = d).
Proof.
  intros Hp Hc. apply String.eqb_neq in Hp, Hc.
  unfold _reshape_data. cbn [fst snd]. rewrite Hp, Hc. split.
  - intros H.
    destruct (fst (shape d) mod fst b + snd (shape d) mod snd b =? 0)
      eqn:E; [apply Nat.eqb_eq in E; lia|]. reflexivity.
  - intros [H1 H2]. rewrite H1, H2. cbn. eexists. split; reflexivity.
Qed.

(** C4, as the code has it.  Once the arguments are processed, an edge
    method other than 'pad' and 'crop' makes construction fail with the
    [ValueError] of kind InvalidConfiguration exactly when the image shape
    is not a multiple of the box size in some dimension; when it is a
    multiple in both, the edge method is not examined and no exception
    about it is raised. *)
Theorem edge_method_checked_when_not_multiple
  (ext : Externals) (s : store) (a : Args) (c : Config) :
  init_config a = Ok c ->
  a_edge_method a <> "pad"%string -> a_edge_method a <> "crop"%string ->
  let h := fst (shape (a_data a)) in
  let w := snd (shape (a_data a)) in
  let by_ := fst (c_box_size c) in
  let bx := snd (c_box_size c) in
  (h mod by_ <> 0 \/ w mod bx <> 0 ->
   snd (__init__ ext s a) = Raise (ValueError Msg_edge_method) /\
   kind_of (ValueError Msg_edge_method) = InvalidConfiguration) /\
  (h mod by_ = 0 /\ w mod bx = 0 ->
   forall e, snd (__init__ ext s a) = Raise e ->
             e <> ValueError Msg_edge_method).
Proof.
  intros Hc Hp Hcr. cbv zeta.
  assert (Hinit : snd (__init__ ext s a)
                  = init_stages ext
                      (setattr_sigma_clip
                         (setattr_sigma_clip s (bkg_estimator_of a) None)
                         (bkgrms_estimator_of a) None) a c).
  { unfold __init__. rewrite Hc. reflexivity. }
  rewrite Hinit. clear Hinit. unfold init_stages.
  destruct (@init_config_inv a c Hc) as [_ Hms].
  destruct (@prepare_data_shaped (a_data a) (c_masks c) Hms) as [Hsh _].
  destruct (@reshape_data_edge_method
              (fst (_prepare_data (a_data a) (c_masks c))) (c_box_size c)
              (a_edge_method a) Hp Hcr) as [Hbad Hgood].
  rewrite Hsh in Hbad, Hgood. split.
  - intros H. rewrite (Hbad H). split; reflexivity.
  - intros H e. destruct (Hgood H) as (rs & -> & _). cbn [bind].
    destruct (_select_initial_boxes _ _ _) as [sel|e'] eqn:Es; cbn [bind].
    + destruct (_compute_box_statistics _ _ _ _ _ _ _ _) as [st|e'] eqn:Est;
        cbn [bind].
      * destruct (_make_meshes _ _ _ _) as [me|e'] eqn:Eme; cbn [bind].
        -- destruct (_filter_meshes _ _ _ _ _) as [fm|e'] eqn:Efm;
             cbn [bind]; [discriminate|].
           intros He. injection He as <-.
           destruct (filter_meshes_raise _ _ _ _ _ Efm) as [-> | ->];
             discriminate.
        -- intros He. injection He as <-.
           rewrite (make_meshes_raise _ _ _ _ Eme). discriminate.
      * intros He. injection He as <-.
        destruct (compute_box_statistics_raise _ _ _ _ _ _ _ _ Est)
          as [-> | ->]; discriminate.
    + intros He. injection He as <-.
      rewrite (select_initial_boxes_raise _ _ _ Es). discriminate.
Qed.

(** A 4x5 image with boxes of 2x2: the columns leave a remainder, and the
    edge method 'wrap' is rejected. *)
Lemma edge_method_witness :
  exists c,
    init_config (Demo.args Demo.img_wide [2]%Z [1]%Z 10 "wrap" None None)
    = Ok c /\
    "wrap"%string <> "pad"%string /\ "wrap"%string <> "crop"%string /\
    snd (__init__ Demo.ext Demo.heap
           (Demo.args Demo.img_wide [2]%Z [1]%Z 10 "wrap" None None))
    = Raise (ValueError Msg_edge_method).
Proof.
  eexists.
  match goal with
  | |- ?H1 /\ _ => assert (h1 : H1) by (vm_compute; reflexivity)
  end.
  split; [exact h1|]. split; [discriminate|]. split; [discriminate|].
  destruct (@edge_method_checked_when_not_multiple
              Demo.ext Demo.heap _ _ h1 ltac:(discriminate)
              ltac:(discriminate)) as [Hbad _].
  apply Hbad. right. vm_compute. discriminate.
Defined.

(** C4 does not hold for every image: for the 4x4 image [Demo.img_full] and
    boxes of 2x2 the constructor completes although the edge method is
    'wrap'. *)
Lemma edge_method_unchecked_on_exact_multiple :
  a_edge_method (Demo.args Demo.img_full [2]%Z [1]%Z 10 "wrap" None None)
  <> "pad"%string /\
  a_edge_method (Demo.args Demo.img_full [2]%Z [1]%Z 10 "wrap" None None)
  <> "crop"%string /\
  exists o,
    snd (__init__ Demo.ext Demo.heap
           (Demo.args Demo.img_full [2]%Z [1]%Z 10 "wrap" None None))
    = Ok o /\
    edge_method o = "wrap"%string /\ nboxes o = (2, 2).
Proof.
  split; [discriminate|]. split; [discriminate|].
  eexists. split; [vm_compute; reflexivity|].
  split; vm_compute; reflexivity.
Qed.

(** ** Writing into arrays *)

Lemma length_set_nth {A} (x : A) (l : list A) :
  forall i, length (set_nth i x l) = length l.
Proof.
  induction l as [|y t IH]; intros [|i]; simpl; try reflexivity.
  now rewrite IH.
Qed.

Lemma nth_set_nth {A} (x d : A) (l : list A) :
  forall i k,
    nth k (set_nth i x l) d =
    if (k =? i) && (i <? length l) then x else nth k l d.
Proof.
  induction l as [|y t IH]; intros i k.
  - destruct i, k; simpl; rewrite ?andb_false_r; reflexivity.
  - destruct i as [|i], k as [|k]; simpl; try reflexivity.
    rewrite IH. reflexivity.
Qed.

Lemma Forall_set_nth {A} (P : A -> Prop) (x : A) (l : list A) :
  Forall P l ->
  forall i, (i < length l -> P x) -> Forall P (set_nth i x l).
Proof.
  intros Hl. induction Hl as [|y t Hy Ht IH]; intros [|i] Hx; simpl;
    constructor; auto.
  - apply Hx. simpl. lia.
  - apply IH. intros Hi. apply Hx. simpl. lia.
Qed.

Lemma set2_rect {A} (h w i j : nat) (v : A) (a : array2 A) :
  rect h w a -> rect h w (set2 i j v a).
Proof.
  intros [Hl Hf]. unfold set2. split.
  - now rewrite length_set_nth.
  - apply Forall_set_nth; [exact Hf|]. intros Hi.
    rewrite length_set_nth.
    rewrite Forall_forall in Hf. apply Hf, nth_In, Hi.
Qed.

Lemma get2_set2 {A} (h w i j r c : nat) (v d : A) (a : array2 A) :
  rect h w a -> i < h -> j < w ->
  get2 d (set2 i j v a) r c =
  if (r =? i) && (c =? j) then v else get2 d a r c.
Proof.
  intros Hr Hi Hj. unfold get2, set2. pose proof Hr as [Hl Hf].
  rewrite nth_set_nth.
  assert (Hi' : (i <? length a) = true) by (apply Nat.ltb_lt; lia).
  rewrite Hi', andb_true_r.
  destruct (r =? i) eqn:Eri; simpl; [|reflexivity].
  apply Nat.eqb_eq in Eri. subst r.
  rewrite nth_set_nth. rewrite (rect_row Hr Hi).
  assert (Hj' : (j <? w) = true) by (apply Nat.ltb_lt; lia).
  now rewrite Hj', andb_true_r.
Qed.

Lemma np_full_rect {A} (h w : nat) (v : A) : rect h w (np_full h w v).
Proof.
  unfold np_full. split; [apply repeat_length|].
  apply Forall_forall. intros r Hr. apply repeat_spec in Hr. subst r.
  apply repeat_length.
Qed.

Lemma combine_map_seq {A B} (f : nat -> A) (d : B) (data : list B) :
  forall s,
    combine (map f (seq s (length data))) data =
    map (fun k => (f k, nth (k - s) data d)) (seq s (length data)).
Proof.
  induction data as [|x t IH]; intros s; simpl; [reflexivity|].
  rewrite Nat.sub_diag. f_equal. rewrite IH.
  apply map_ext_in. intros k Hk. apply in_seq in Hk.
  replace (k - s) with (S (k - S s)) by lia. reflexivity.
Qed.

(** ** Mesh assembly *)

Lemma unravel_index_seq (ny nx : nat) :
  forall n s, s + n <= ny * nx ->
    unravel_index (seq s n) (ny, nx) =
    Ok (map (fun k => (k / nx, k mod nx)) (seq s n)).
Proof.
  induction n as [|n IH]; intros s Hs; simpl; [reflexivity|].
  assert (E : (s <? ny * nx) = true) by (apply Nat.ltb_lt; lia).
  rewrite E. rewrite IH by lia. reflexivity.
Qed.

Lemma unravel_eq (nx r c m : nat) :
  c < nx -> ((r =? m / nx) && (c =? m mod nx) = true <-> r * nx + c = m).
Proof.
  intros Hc. rewrite andb_true_iff, !Nat.eqb_eq. split.
  - intros [-> ->]. pose proof (Nat.div_mod_eq m nx). lia.
  - intros <-. split.
    + rewrite Nat.div_add_l by lia. rewrite Nat.div_small by lia. lia.
    + rewrite Nat.add_comm, Nat.Div0.mod_add. symmetry.
      apply Nat.mod_small. lia.
Qed.

(** Writing the first [m] values at their row-major places. *)
Lemma scatter_row_major (ny nx : nat) (data : list value) (d : value)
  (a0 : array2 value) :
  rect ny nx a0 ->
  forall m, m <= ny * nx ->
    let am := fold_left
                (fun a (p : nat * nat * value) =>
                   set2 (fst (fst p)) (snd (fst p)) (snd p) a)
                (map (fun k => ((k / nx, k mod nx), nth k data d)) (seq 0 m))
                a0 in
    rect ny nx am /\
    forall r c, r < ny -> c < nx ->
      get2 d am r c =
      if r * nx + c <? m then nth (r * nx + c) data d else get2 d a0 r c.
Proof.
  intros Hr. induction m as [|m IH]; intros Hm; cbv zeta.
  - simpl. split; [exact Hr | reflexivity].
  - destruct (IH ltac:(lia)) as [Hrect Hget]. cbv zeta in Hrect, Hget.
    rewrite seq_S, map_app, fold_left_app. simpl.
    set (am := fold_left _ _ a0) in *.
    assert (Hnx : 0 < nx) by (destruct nx; [lia | lia]).
    assert (Hi : m / nx < ny).
    { apply Nat.Div0.div_lt_upper_bound. lia. }
    assert (Hj : m mod nx < nx) by (apply Nat.mod_upper_bound; lia).
    split; [now apply set2_rect|].
    intros r c Hrn Hcn.
    rewrite (@get2_set2 _ ny nx (m / nx) (m mod nx) r c
               (nth m data d) d am Hrect Hi Hj).
    destruct ((r =? m / nx) && (c =? m mod nx)) eqn:E.
    + apply (proj1 (@unravel_eq nx r c m Hcn)) in E. subst m.
      assert (E' : (r * nx + c <? S (r * nx + c)) = true)
        by (apply Nat.ltb_lt; lia).
      now rewrite E'.
    + rewrite Hget by assumption.
      assert (Hne : r * nx + c <> m).
      { intros Heq. apply (proj2 (@unravel_eq nx r c m Hcn)) in Heq.
        congruence. }
      destruct (r * nx + c <? m) eqn:E1, (r * nx + c <? S m) eqn:E2;
        try reflexivity.
      * apply Nat.ltb_lt in E1. apply Nat.ltb_ge in E2. lia.
      * apply Nat.ltb_ge in E1. apply Nat.ltb_lt in E2. lia.
Qed.

(** The dense branch of [_make_2d_array]. *)
Lemma make_2d_array_dense (ny nx : nat) (data : list value) :
  length data = ny * nx ->
  exists mesh,
    _make_2d_array (ny, nx)
      (map (fun k => (k / nx, k mod nx)) (seq 0 (ny * nx))) data = Ok mesh /\
    rect ny nx mesh /\
    forall r c, r < ny -> c < nx ->
      get2 nan mesh r c = nth (r * nx + c) data nan.
Proof.
  intros Hlen. unfold _make_2d_array.
  rewrite length_map, length_seq, Hlen, Nat.eqb_refl. cbn [fst snd].
  assert (Escat :
    scatter (np_full ny nx nan)
            (map (fun k => (k / nx, k mod nx)) (seq 0 (ny * nx))) data
    = fold_left
        (fun a (p : nat * nat * value) =>
           set2 (fst (fst p)) (snd (fst p)) (snd p) a)
        (map (fun k => ((k / nx, k mod nx), nth k data nan))
             (seq 0 (ny * nx)))
        (np_full ny nx nan)).
  { unfold scatter. f_equal. rewrite <- Hlen.
    rewrite (combine_map_seq (fun k => (k / nx, k mod nx)) nan data 0).
    apply map_ext. intros k. now rewrite Nat.sub_0_r. }
  eexists. split; [reflexivity|]. rewrite Escat.
  destruct (@scatter_row_major ny nx data nan (np_full ny nx nan)
              (np_full_rect ny nx nan) (ny * nx) (le_n _)) as [Hrect Hget].
  cbv zeta in Hrect, Hget. split; [exact Hrect|].
  intros r c Hr Hc. rewrite Hget by assumption.
  assert (E : (r * nx + c <? ny * nx) = true) by (apply Nat.ltb_lt; nia).
  now rewrite E.
Qed.

(** ** What the statistics stage returns *)

Lemma select_initial_boxes_inv (rows : array2 value) (p : Q) (n : nat)
  (sel : list nat * array2 value) :
  _select_initial_boxes rows p n = Ok sel ->
  fst sel = surviving p n rows /\
  take_idx rows (surviving p n rows) = Ok (snd sel).
Proof.
  intros H. destruct (surviving p n rows) as [|k t] eqn:E.
  - rewrite (select_initial_boxes_none _ _ _ E) in H. discriminate.
  - destruct (@select_initial_boxes_eq rows p n) as (kept & Hk & Hs);
      [congruence|].
    rewrite Hs in H. injection H as <-. rewrite <- E. split; [reflexivity|].
    exact Hk.
Qed.

Lemma compute_box_statistics_inv (ext : Externals)
  (clip : option sigma_clip_fn) (e1 e2 : Estimator) (idx : list nat)
  (rows : array2 value) (p : Q) (n : nat) (st : Stats) :
  _compute_box_statistics ext clip e1 e2 idx rows p n = Ok st ->
  take_idx idx (surviving p n (clipped clip rows)) = Ok (s_box_idx st) /\
  length (s_box_data st) = length (s_box_idx st) /\
  s_bkg1d st = map nanmedian (s_box_data st) /\
  s_bkgrms1d st = map (nanstd ext) (s_box_data st).
Proof.
  unfold _compute_box_statistics. fold (clipped clip rows).
  rewrite get_box_indices_eq.
  destruct (surviving p n (clipped clip rows)) as [|k t] eqn:E;
    [discriminate|]. cbn [bind].
  destruct (take_idx idx (k :: t)) as [bi|] eqn:E1; cbn [bind];
    [|discriminate].
  destruct (negb (length bi =? length (clipped clip rows))) eqn:El.
  - destruct (take_idx (clipped clip rows) (k :: t)) as [bd|] eqn:E2;
      cbn [bind]; [|discriminate].
    intros H. injection H as <-. cbn.
    split; [reflexivity|]. split; [|split; reflexivity].
    destruct (take_idx_inv _ _ E1) as (L1 & _).
    destruct (take_idx_inv _ _ E2) as (L2 & _). congruence.
  - cbn [bind]. intros H. injection H as <-. cbn.
    split; [reflexivity|]. split; [|split; reflexivity].
    apply negb_false_iff, Nat.eqb_eq in El. congruence.
Qed.

(** The ids that survive both tests are increasing ids of boxes. *)
Lemma final_box_idx_increasing (ext : Externals)
  (clip : option sigma_clip_fn) (e1 e2 : Estimator) (rows : array2 value)
  (p : Q) (n : nat) (sel : list nat * array2 value) (st : Stats) :
  _select_initial_boxes rows p n = Ok sel ->
  _compute_box_statistics ext clip e1 e2 (fst sel) (snd sel) p n = Ok st ->
  increasing (s_box_idx st) /\
  forall k, In k (s_box_idx st) -> k < length rows.
Proof.
  intros Hsel Hst.
  destruct (select_initial_boxes_inv _ _ _ Hsel) as [Hf _].
  destruct (compute_box_statistics_inv _ _ _ _ _ _ _ _ Hst) as (Ht & _).
  rewrite Hf in Ht. split.
  - eapply take_idx_increasing; [| |exact Ht]; apply surviving_increasing.
  - intros k Hk. eapply surviving_lt. eapply take_idx_in; eauto.
Qed.

(** The dense branch of the mesh assembly, for any list of box rows. *)
Lemma dense_placement
  (ext : Externals) (clip : option sigma_clip_fn) (e1 e2 : Estimator)
  (rows : array2 value) (p : Q) (n ny nx : nat)
  (sel : list nat * array2 value) (st : Stats) :
  length rows = ny * nx ->
  _select_initial_boxes rows p n = Ok sel ->
  _compute_box_statistics ext clip e1 e2 (fst sel) (snd sel) p n = Ok st ->
  length (s_box_idx st) = ny * nx ->
  exists me,
    _make_meshes ext (ny, nx) (ny * nx) st = Ok me /\
    length (s_bkg1d st) = ny * nx /\
    length (s_bkgrms1d st) = ny * nx /\
    rect ny nx (ms_background_mesh me) /\
    rect ny nx (ms_background_rms_mesh me) /\
    forall r c, r < ny -> c < nx ->
      nth (r * nx + c) (s_box_idx st) 0 = r * nx + c /\
      get2 nan (ms_background_mesh me) r c
      = nth (r * nx + c) (s_bkg1d st) nan /\
      get2 nan (ms_background_rms_mesh me) r c
      = nth (r * nx + c) (s_bkgrms1d st) nan.
Proof.
  intros Hrows Hsel Hst Hall.
  destruct (final_box_idx_increasing _ _ _ _ _ _ _ Hsel Hst) as [Hinc Hlt].
  destruct (compute_box_statistics_inv _ _ _ _ _ _ _ _ Hst)
    as (_ & Hlen & Hb & Hr).
  assert (Hidx : s_box_idx st = seq 0 (ny * nx)).
  { destruct (@increasing_bounded (s_box_idx st) Hinc 0 (ny * nx))
      as [_ Heq].
    - intros x Hx. specialize (Hlt x Hx). lia.
    - rewrite Nat.sub_0_r in Heq. now apply Heq. }
  assert (Lb : length (s_bkg1d st) = ny * nx)
    by (rewrite Hb, length_map; congruence).
  assert (Lr : length (s_bkgrms1d st) = ny * nx)
    by (rewrite Hr, length_map; congruence).
  destruct (make_2d_array_dense ny nx (s_bkg1d st) Lb)
    as (bkg & Ebkg & Rbkg & Gbkg).
  destruct (make_2d_array_dense ny nx (s_bkgrms1d st) Lr)
    as (rms & Erms & Rrms & Grms).
  unfold _make_meshes. rewrite Hidx.
  rewrite (unravel_index_seq ny nx (ny * nx) 0) by lia. cbn [bind].
  rewrite Lb, Nat.eqb_refl, Ebkg. cbn [bind]. rewrite Erms. cbn [bind].
  eexists. split; [reflexivity|].
  cbn [ms_background_mesh ms_background_rms_mesh fst snd].
  split; [reflexivity|]. split; [exact Lr|].
  split; [exact Rbkg|]. split; [exact Rrms|].
  intros r c Hrn Hcn. split; [|split; auto].
  rewrite seq_nth by nia. reflexivity.
Qed.

Lemma length_flat_map_const {A B} (f : A -> list B) (k : nat) (l : list A) :
  (forall x, length (f x) = k) -> length (flat_map f l) = length l * k.
Proof.
  intros Hf. induction l as [|x t IH]; simpl; [reflexivity|].
  rewrite length_app, Hf, IH. reflexivity.
Qed.

Lemma box_rows_length (d : array2 value) (nb bs : nat * nat) :
  length (box_rows d nb bs) = fst nb * snd nb.
Proof.
  unfold box_rows. rewrite (@length_flat_map_const _ _ _ (snd nb)).
  - now rewrite length_seq.
  - intros r. now rewrite length_map, length_seq.
Qed.

Lemma reshape_data_inv (d : array2 value) (bs : nat * nat) (m : string)
  (rs : Reshaped) :
  _reshape_data d bs m = Ok rs ->
  r_nboxes_tot rs = fst (r_nboxes rs) * snd (r_nboxes rs) /\
  r_box_npixels rs = fst bs * snd bs /\
  r_box_data rs = box_rows (r_data rs) (r_nboxes rs) bs.
Proof.
  unfold _reshape_data.
  destruct (if negb _ then _ else _) as [dn|]; cbn [bind]; [|discriminate].
  intros H. injection H as <-. cbn. repeat split.
Qed.

(** C7.  When the number of boxes that survive both exclusion tests is the
    number of boxes of the grid, the surviving ids are 0, 1, ... in order,
    the mesh assembly succeeds, and the mesh value at cell (r, c) is the
    value the statistics stage computed for the box of linear index
    r * nboxes_x + c, for the background and for the RMS mesh, whatever the
    interpolator of scattered samples is. *)
Theorem dense_mesh_is_exact_placement
  (ext : Externals) (clip : option sigma_clip_fn) (e1 e2 : Estimator)
  (d : array2 value) (bs : nat * nat) (m : string) (p : Q)
  (rs : Reshaped) (sel : list nat * array2 value) (st : Stats) :
  _reshape_data d bs m = Ok rs ->
  _select_initial_boxes (r_box_data rs) p (r_box_npixels rs) = Ok sel ->
  _compute_box_statistics ext clip e1 e2 (fst sel) (snd sel) p
                          (r_box_npixels rs) = Ok st ->
  length (s_box_idx st) = fst (r_nboxes rs) * snd (r_nboxes rs) ->
  exists me,
    _make_meshes ext (r_nboxes rs) (r_nboxes_tot rs) st = Ok me /\
    rect (fst (r_nboxes rs)) (snd (r_nboxes rs)) (ms_background_mesh me) /\
    rect (fst (r_nboxes rs)) (snd (r_nboxes rs))
         (ms_background_rms_mesh me) /\
    forall r c, r < fst (r_nboxes rs) -> c < snd (r_nboxes rs) ->
      let k := r * snd (r_nboxes rs) + c in
      k < length (s_box_idx st) /\
      nth k (s_box_idx st) 0 = k /\
      get2 nan (ms_background_mesh me) r c = nth k (s_bkg1d st) nan /\
      get2 nan (ms_background_rms_mesh me) r c = nth k (s_bkgrms1d st) nan /\
      nth k (s_bkg1d st) nan = nanmedian (nth k (s_box_data st) []) /\
      nth k (s_bkgrms1d st) nan = nanstd ext (nth k (s_box_data st) []).
Proof.
  intros Hrs Hsel Hst Hall.
  destruct (reshape_data_inv _ _ _ Hrs) as (Htot & _ & Hbd).
  destruct (r_nboxes rs) as [ny nx] eqn:Enb. cbn [fst snd] in *.
  assert (Hrows : length (r_box_data rs) = ny * nx).
  { rewrite Hbd, box_rows_length. reflexivity. }
  destruct (@dense_placement ext clip e1 e2 (r_box_data rs) p
              (r_box_npixels rs) ny nx sel st Hrows Hsel Hst Hall)
    as (me & Hme & Lb & Lr & Rb & Rr & Hcells).
  destruct (compute_box_statistics_inv _ _ _ _ _ _ _ _ Hst)
    as (_ & Hlen & Hb & Hr).
  exists me. rewrite Htot. split; [exact Hme|].
  split; [exact Rb|]. split; [exact Rr|].
  intros r c Hrn Hcn. cbv zeta.
  destruct (Hcells r c Hrn Hcn) as (H1 & H2 & H3).
  assert (Hk : r * nx + c < ny * nx) by nia.
  split; [lia|]. split; [exact H1|]. split; [exact H2|]. split; [exact H3|].
  rewrite Hb, Hr. split.
  - apply (nth_map_lt nanmedian (s_box_data st) [] nan). lia.
  - apply (nth_map_lt (nanstd ext) (s_box_data st) [] nan). lia.
Qed.

(** [Demo.img_full] in boxes of 2x2: every box survives. *)
Lemma dense_mesh_witness :
  exists rs sel st,
    _reshape_data Demo.img_full (2, 2) "pad" = Ok rs /\
    _select_initial_boxes (r_box_data rs) 10 (r_box_npixels rs) = Ok sel /\
    _compute_box_statistics Demo.ext None (Demo.heap 5) (Demo.heap 6)
      (fst sel) (snd sel) 10 (r_box_npixels rs) = Ok st /\
    length (s_box_idx st) = fst (r_nboxes rs) * snd (r_nboxes rs) /\
    exists me,
      _make_meshes Demo.ext (r_nboxes rs) (r_nboxes_tot rs) st = Ok me /\
      get2 nan (ms_background_mesh me) 1 0 = nth 2 (s_bkg1d st) nan.
Proof.
  eexists. eexists. eexists.
  match goal with
  | |- ?H1 /\ ?H2 /\ ?H3 /\ ?H4 /\ _ =>
      assert (h1 : H1) by (vm_compute; reflexivity);
      assert (h2 : H2) by (vm_compute; reflexivity);
      assert (h3 : H3) by (vm_compute; reflexivity);
      assert (h4 : H4) by (vm_compute; reflexivity)
  end.
  split; [exact h1|]. split; [exact h2|]. split; [exact h3|].
  split; [exact h4|].
  destruct (@dense_mesh_is_exact_placement _ _ _ _ _ _ _ _ _ _ _
              h1 h2 h3 h4)
    as (me & Hme & _ & _ & Hcells).
  exists me. split; [exact Hme|].
  destruct (Hcells 1 0 ltac:(vm_compute; lia) ltac:(vm_compute; lia))
    as (_ & _ & Hb & _).
  exact Hb.
Defined.

(** ** Selective filtering *)

Lemma existsb_at_cell (i j : nat) (l : list (nat * nat)) :
  existsb (at_cell i j) l = true <-> In (i, j) l.
Proof.
  rewrite existsb_exists. split.
  - intros ([a b] & Hin & H). unfold at_cell in H. simpl in H.
    apply andb_true_iff in H. destruct H as [H1 H2].
    apply Nat.eqb_eq in H1, H2. now subst.
  - intros H. exists (i, j). split; [exact H|].
    unfold at_cell. simpl. now rewrite !Nat.eqb_refl.
Qed.

(** The loop writes the window median at the listed cells and nothing
    else; the medians are taken in [data], not in the partly written
    output. *)
Lemma selective_loop_spec (yfs xfs : Z) (h w : nat) (data : array2 value)
  (d : value) (indices : list (nat * nat)) :
  rect h w data ->
  (forall p, In p indices -> fst p < h /\ snd p < w) ->
  forall out, rect h w out ->
  exists res,
    selective_loop [yfs; xfs] data indices out = Ok res /\
    rect h w res /\
    forall i j, i < h -> j < w ->
      get2 d res i j =
      if existsb (at_cell i j) indices
      then np_median (window yfs xfs data i j)
      else get2 d out i j.
Proof.
  intros Hdata. induction indices as [|[i0 j0] rest IH]; intros Hin out Hout.
  - exists out. split; [reflexivity|]. split; [exact Hout|]. reflexivity.
  - destruct (Hin (i0, j0) (or_introl eq_refl)) as [Hi0 Hj0].
    cbn [fst snd] in Hi0, Hj0.
    destruct (IH (fun p Hp => Hin p (or_intror Hp))
                 (set2 i0 j0 (np_median (window yfs xfs data i0 j0)) out)
                 (set2_rect i0 j0 _ Hout))
      as (res & Hres & Hrect & Hget).
    exists res. split; [exact Hres|]. split; [exact Hrect|].
    intros i j Hi Hj. rewrite (Hget i j Hi Hj). cbn [existsb].
    rewrite (@get2_set2 _ h w i0 j0 i j _ d out Hout Hi0 Hj0).
    unfold at_cell at 2. cbn [fst snd].
    rewrite (Nat.eqb_sym i0 i), (Nat.eqb_sym j0 j).
    destruct (existsb (at_cell i j) rest).
    + now rewrite orb_true_r.
    + rewrite orb_false_r.
      destruct ((i =? i0) && (j =? j0)) eqn:E; [|reflexivity].
      apply andb_true_iff in E. destruct E as [E1 E2].
      apply Nat.eqb_eq in E1, E2. now subst.
Qed.

Lemma combine_seq {A} (d : A) (l : list A) :
  combine (seq 0 (length l)) l =
  map (fun k => (k, nth k l d)) (seq 0 (length l)).
Proof.
  pose proof (combine_map_seq (fun k : nat => k) d l 0) as H.
  rewrite map_id in H. rewrite H. apply map_ext. intros k.
  now rewrite Nat.sub_0_r.
Qed.

(** The cells selected by [np.nonzero(mesh > threshold)]. *)
Lemma nonzero_gt_spec (h w : nat) (mesh : array2 value) (t : value)
  (i j : nat) :
  rect h w mesh ->
  (In (i, j) (nonzero_gt mesh t) <->
   i < h /\ j < w /\ gt (get2 nan mesh i j) t = true).
Proof.
  intros Hr. pose proof Hr as [Hl Hf]. unfold nonzero_gt.
  rewrite (combine_seq [] mesh), map_map. cbn [fst snd].
  rewrite in_concat. split.
  - intros (l & Hl' & Hin). apply in_map_iff in Hl'.
    destruct Hl' as (k & <- & Hk). apply in_seq in Hk.
    apply in_map_iff in Hin. destruct Hin as (j' & Heq & Hj').
    injection Heq as -> ->.
    unfold np_where in Hj'. apply where_from_spec in Hj'.
    destruct Hj' as [_ Hj']. rewrite Nat.sub_0_r in Hj'.
    assert (Hjl : j < length (map (fun v => gt v t) (nth i mesh []))).
    { apply nth_error_Some. congruence. }
    rewrite length_map in Hjl.
    rewrite (rect_row Hr) in Hjl by lia.
    split; [lia|]. split; [exact Hjl|].
    apply (nth_error_nth _ _ false) in Hj'.
    rewrite (nth_map_lt _ _ nan) in Hj' by (rewrite (rect_row Hr); lia).
    exact Hj'.
  - intros (Hi & Hj & Hgt).
    exists (map (fun j' => (i, j'))
                (np_where (map (fun v => gt v t) (nth i mesh [])))).
    split.
    + apply in_map_iff. exists i. split; [reflexivity|].
      apply in_seq. lia.
    + apply in_map. unfold np_where. apply where_from_spec.
      split; [lia|]. rewrite Nat.sub_0_r.
      assert (Hjl : j < length (map (fun v => gt v t) (nth i mesh [])))
        by (rewrite length_map, (rect_row Hr); lia).
      rewrite (nth_error_nth' _ false Hjl). f_equal.
      rewrite (nth_map_lt _ _ nan) by (rewrite (rect_row Hr); lia).
      exact Hgt.
Qed.

Lemma np_median_single (x : value) : np_median [x] = x.
Proof. destruct x as [q|]; reflexivity. Qed.

Lemma firstn_1_skipn {A} (d : A) (l : list A) :
  forall i, i < length l -> firstn 1 (skipn i l) = [nth i l d].
Proof.
  induction l as [|x t IH]; intros [|i] Hi; simpl in *; try lia.
  - reflexivity.
  - apply IH. lia.
Qed.

Lemma py_slice_single {A} (d : A) (l : list A) (i : nat) (lo hi : Z) :
  i < length l -> lo = Z.of_nat i -> hi = (Z.of_nat i + 1)%Z ->
  py_slice lo hi l = [nth i l d].
Proof.
  intros Hi -> ->. unfold py_slice, slice.
  assert (E1 : (Z.of_nat i <? 0)%Z = false) by (apply Z.ltb_ge; lia).
  assert (E2 : (Z.of_nat i + 1 <? 0)%Z = false) by (apply Z.ltb_ge; lia).
  rewrite E1, E2.
  replace (Z.to_nat (Z.min (Z.of_nat i) (Z.of_nat (length l)))) with i
    by lia.
  replace (Z.to_nat (Z.min (Z.of_nat i + 1) (Z.of_nat (length l))))
    with (S i) by lia.
  replace (S i - i) with 1 by lia. now apply firstn_1_skipn.
Qed.

(** A 1x1 window is the cell itself. *)
Lemma window_1_1 (h w : nat) (a : array2 value) (i j : nat) :
  rect h w a -> i < h -> j < w -> window 1 1 a i j = [get2 nan a i j].
Proof.
  intros Hr Hi Hj. unfold window.
  rewrite (rect_shape Hr) by lia. cbn [fst snd].
  change (1 / 2)%Z with 0%Z. pose proof Hr as [Hl _].
  rewrite (@py_slice_single _ [] a i) by lia. cbn [map].
  rewrite (@py_slice_single _ nan (nth i a []) j)
    by (rewrite ?(rect_row Hr); lia).
  reflexivity.
Qed.

Lemma list_Z_eqb_pair (y x : Z) :
  list_Z_eqb [y; x] [1; 1]%Z = true -> y = 1%Z /\ x = 1%Z.
Proof.
  unfold list_Z_eqb. cbn. rewrite andb_true_r, andb_true_iff, !Z.eqb_eq.
  tauto.
Qed.

(** *** The window as a set of cells *)

Lemma filter_interval (lo hi : nat) :
  forall n,
    filter (fun k => (lo <=? k) && (k <? hi)) (seq 0 n) =
    seq lo (Nat.min hi n - lo).
Proof.
  induction n as [|n IH]; [now rewrite Nat.min_0_r|].
  rewrite seq_S, filter_app, IH. cbn [filter Nat.add].
  destruct ((lo <=? n) && (n <? hi)) eqn:E.
  - apply andb_true_iff in E. destruct E as [E1 E2].
    apply Nat.leb_le in E1. apply Nat.ltb_lt in E2.
    replace (Nat.min hi (S n) - lo) with (S (Nat.min hi n - lo)) by lia.
    rewrite seq_S. f_equal. f_equal. lia.
  - rewrite app_nil_r. f_equal.
    apply andb_false_iff in E. destruct E as [E|E].
    + apply Nat.leb_gt in E. lia.
    + apply Nat.ltb_ge in E. lia.
Qed.

Lemma skipn_cons_nth {A} (d : A) (l : list A) :
  forall k, k < length l -> skipn k l = nth k l d :: skipn (S k) l.
Proof.
  induction l as [|x t IH]; intros [|k] Hk; simpl in *; try lia.
  - reflexivity.
  - apply IH. lia.
Qed.

Lemma map_nth_seq {A} (d : A) (l : list A) :
  forall m lo, lo + m <= length l ->
    map (fun k => nth k l d) (seq lo m) = firstn m (skipn lo l).
Proof.
  induction m as [|m IH]; intros lo Hlo; [reflexivity|].
  rewrite (skipn_cons_nth d) by lia. cbn [seq map firstn]. f_equal.
  apply IH. lia.
Qed.

(** A clipped slice along one axis holds the entries whose index lies in
    the window. *)
Lemma py_slice_window {A} (d : A) (l : list A) (s : Z) (i : nat) :
  (0 < s)%Z -> i < length l ->
  py_slice (Z.max (Z.of_nat i - s / 2) 0)
           (Z.min (Z.of_nat i - s / 2 + s) (Z.of_nat (length l))) l =
  map (fun k => nth k l d) (filter (in_window s i) (seq 0 (length l))).
Proof.
  intros Hs Hi. unfold py_slice, slice.
  set (n := Z.of_nat (length l)).
  set (lo := Z.max (Z.of_nat i - s / 2) 0).
  set (hi := Z.min (Z.of_nat i - s / 2 + s) n).
  assert (Hh : (0 <= s / 2 < s)%Z).
  { split; [apply Z.div_pos; lia|].
    apply Z.div_lt_upper_bound; lia. }
  assert (E1 : (lo <? 0)%Z = false) by (apply Z.ltb_ge; unfold lo; lia).
  assert (E2 : (hi <? 0)%Z = false)
    by (apply Z.ltb_ge; unfold hi, n; lia).
  rewrite E1, E2.
  replace (Z.min lo n) with lo by (unfold lo, n; lia).
  replace (Z.min hi n) with hi by (unfold hi; lia).
  rewrite (filter_ext_in (in_window s i)
             (fun k => (Z.to_nat lo <=? k) && (k <? Z.to_nat hi))).
  - rewrite filter_interval.
    replace (Nat.min (Z.to_nat hi) (length l)) with (Z.to_nat hi)
      by (unfold hi, n; lia).
    symmetry. apply map_nth_seq. unfold hi, lo, n. lia.
  - intros k Hk. apply in_seq in Hk. unfold in_window.
    destruct (Nat.leb_spec (Z.to_nat lo) k) as [Ea|Ea],
             (Nat.ltb_spec k (Z.to_nat hi)) as [Eb|Eb]; cbn [andb].
    + apply andb_true_iff. split; [apply Z.leb_le | apply Z.ltb_lt];
        unfold lo, hi, n in *; lia.
    + apply andb_false_iff. right. apply Z.ltb_ge.
      unfold lo, hi, n in *. lia.
    + apply andb_false_iff. left. apply Z.leb_gt.
      unfold lo, hi, n in *. lia.
    + apply andb_false_iff. left. apply Z.leb_gt.
      unfold lo, hi, n in *. lia.
Qed.

Lemma filter_none {A} (l : list A) : filter (fun _ => false) l = [].
Proof. induction l; auto. Qed.

Lemma filter_product {A B} (f : A -> bool) (g : B -> bool)
  (rows : list A) (cols : list B) :
  filter (fun p => f (fst p) && g (snd p))
         (flat_map (fun r => map (fun c => (r, c)) cols) rows) =
  flat_map (fun r => map (fun c => (r, c)) (filter g cols)) (filter f rows).
Proof.
  induction rows as [|r t IH]; [reflexivity|].
  cbn [flat_map filter]. rewrite filter_app, IH, filter_map_swap.
  cbn [fst snd]. destruct (f r); cbn [andb flat_map].
  - reflexivity.
  - now rewrite filter_none.
Qed.

Lemma map_flat_map_pairs {A B C} (h : A * B -> C) (rows : list A)
  (cols : list B) :
  map h (flat_map (fun r => map (fun c => (r, c)) cols) rows) =
  concat (map (fun r => map (fun c => h (r, c)) cols) rows).
Proof.
  induction rows as [|r t IH]; [reflexivity|].
  cbn [flat_map map concat]. rewrite map_app, IH, map_map. reflexivity.
Qed.

(** The slice taken by [_selective_filter] is the window of the
    specification, for positive filter sizes and a cell of the mesh. *)
Lemma window_is_clipped_window (yfs xfs : Z) (h w : nat)
  (mesh : array2 value) (i j : nat) :
  rect h w mesh -> (0 < yfs)%Z -> (0 < xfs)%Z -> i < h -> j < w ->
  window yfs xfs mesh i j = clipped_window yfs xfs mesh i j.
Proof.
  intros Hr Hy Hx Hi Hj. pose proof Hr as [Hl Hf].
  unfold window, clipped_window, product_range.
  rewrite (rect_shape Hr) by lia. cbn [fst snd].
  rewrite (filter_product (in_window yfs i) (in_window xfs j)).
  rewrite (map_flat_map_pairs
             (fun p => get2 nan mesh (fst p) (snd p))).
  cbn [fst snd]. f_equal.
  rewrite <- Hl at 1.
  rewrite (py_slice_window [] mesh Hy) by lia.
  rewrite Hl, map_map. apply map_ext_in. intros r Hin.
  apply filter_In in Hin. destruct Hin as [Hin _]. apply in_seq in Hin.
  assert (Hw : length (nth r mesh []) = w) by (apply (rect_row Hr); lia).
  rewrite <- Hw at 1.
  rewrite (py_slice_window nan (nth r mesh []) Hx) by lia.
  rewrite Hw. reflexivity.
Qed.

(** Selective filtering, with the window as the slice of the source. *)
Lemma filter_meshes_selective
  (ext : Externals) (yfs xfs : Z) (t : value) (h w : nat)
  (bkg rms : array2 value) :
  rect h w bkg -> rect h w rms ->
  exists bkg' rms',
    _filter_meshes ext [yfs; xfs] (Some t) bkg rms = Ok (bkg', rms') /\
    rect h w bkg' /\ rect h w rms' /\
    forall i j, i < h -> j < w ->
      get2 nan bkg' i j =
      (if gt (get2 nan bkg i j) t
       then np_median (window yfs xfs bkg i j)
       else get2 nan bkg i j) /\
      get2 nan rms' i j =
      (if gt (get2 nan bkg i j) t
       then np_median (window yfs xfs rms i j)
       else get2 nan rms i j).
Proof.
  intros Hb Hr. unfold _filter_meshes.
  destruct (list_Z_eqb [yfs; xfs] [1%Z; 1%Z]) eqn:E11.
  - apply list_Z_eqb_pair in E11. destruct E11 as [-> ->].
    exists bkg, rms. split; [reflexivity|]. split; [exact Hb|].
    split; [exact Hr|]. intros i j Hi Hj.
    rewrite (window_1_1 Hb Hi Hj), (window_1_1 Hr Hi Hj).
    rewrite !np_median_single.
    destruct (gt (get2 nan bkg i j) t); split; reflexivity.
  - assert (Hsel : forall p, In p (nonzero_gt bkg t) ->
                             fst p < h /\ snd p < w).
    { intros [i j] Hin. apply (nonzero_gt_spec t i j Hb) in Hin.
      cbn [fst snd]. tauto. }
    unfold _selective_filter.
    destruct (@selective_loop_spec yfs xfs h w bkg nan (nonzero_gt bkg t)
                Hb Hsel bkg Hb) as (b' & Eb & Rb & Gb).
    destruct (@selective_loop_spec yfs xfs h w rms nan (nonzero_gt bkg t)
                Hr Hsel rms Hr) as (r' & Er & Rr & Gr).
    rewrite Eb. cbn [bind]. rewrite Er. cbn [bind].
    exists b', r'. split; [reflexivity|]. split; [exact Rb|].
    split; [exact Rr|]. intros i j Hi Hj.
    rewrite (Gb i j Hi Hj), (Gr i j Hi Hj).
    assert (Esel : existsb (at_cell i j) (nonzero_gt bkg t)
                   = gt (get2 nan bkg i j) t).
    { destruct (gt (get2 nan bkg i j) t) eqn:Eg.
      - apply existsb_at_cell. apply (nonzero_gt_spec t i j Hb). tauto.
      - destruct (existsb _ _) eqn:Ee; [|reflexivity].
        apply existsb_at_cell in Ee.
        apply (nonzero_gt_spec t i j Hb) in Ee. destruct Ee as (_ & _ & Ee).
        congruence. }
    rewrite Esel. split; reflexivity.
Qed.

(** C8.  With a filter threshold and a filter size of two positive
    entries, filtering two meshes of one shape succeeds; a cell whose
    background value exceeds the threshold holds, in each mesh, the plain
    median of the cells of that mesh, as it was before filtering, that lie
    in the window of the cell clipped to the mesh; every other cell keeps
    its value in both meshes. *)
Theorem selective_filter_replaces_selected_cells
  (ext : Externals) (yfs xfs : Z) (t : value) (h w : nat)
  (bkg rms : array2 value) :
  (0 < yfs)%Z -> (0 < xfs)%Z -> rect h w bkg -> rect h w rms ->
  exists bkg' rms',
    _filter_meshes ext [yfs; xfs] (Some t) bkg rms = Ok (bkg', rms') /\
    rect h w bkg' /\ rect h w rms' /\
    forall i j, i < h -> j < w ->
      get2 nan bkg' i j =
      (if gt (get2 nan bkg i j) t
       then np_median (clipped_window yfs xfs bkg i j)
       else get2 nan bkg i j) /\
      get2 nan rms' i j =
      (if gt (get2 nan bkg i j) t
       then np_median (clipped_window yfs xfs rms i j)
       else get2 nan rms i j).
Proof.
  intros Hy Hx Hb Hr.
  destruct (@filter_meshes_selective ext yfs xfs t h w bkg rms Hb Hr)
    as (b' & r' & E & Rb & Rr & Hcells).
  exists b', r'. split; [exact E|]. split; [exact Rb|]. split; [exact Rr|].
  intros i j Hi Hj.
  rewrite <- (window_is_clipped_window Hb Hy Hx Hi Hj).
  rewrite <- (window_is_clipped_window Hr Hy Hx Hi Hj).
  now apply Hcells.
Qed.

(** A 2x3 background mesh with two cells above the threshold 5. *)
Lemma selective_filter_witness :
  (0 < 3)%Z /\ (0 < 3)%Z /\
  rect 2 3 [[Demo.v 1; Demo.v 9; Demo.v 3]; [Demo.v 4; Demo.v 2; Demo.v 8]]
  /\
  rect 2 3 [[Demo.v 1; Demo.v 1; Demo.v 3]; [Demo.v 4; Demo.v 2; Demo.v 8]]
  /\
  _filter_meshes Demo.ext [3; 3]%Z (Some (Demo.v 5))
    [[Demo.v 1; Demo.v 9; Demo.v 3]; [Demo.v 4; Demo.v 2; Demo.v 8]]
    [[Demo.v 1; Demo.v 1; Demo.v 3]; [Demo.v 4; Demo.v 2; Demo.v 8]]
  = Ok ([[Demo.v 1; Some (7 # 2); Demo.v 3];
         [Demo.v 4; Demo.v 2; Some (11 # 2)]],
        [[Demo.v 1; Some (5 # 2); Demo.v 3];
         [Demo.v 4; Demo.v 2; Some (5 # 2)]]).
Proof.
  assert (H1 : rect 2 3 [[Demo.v 1; Demo.v 9; Demo.v 3];
                         [Demo.v 4; Demo.v 2; Demo.v 8]])
    by (split; [reflexivity | repeat constructor]).
  assert (H2 : rect 2 3 [[Demo.v 1; Demo.v 1; Demo.v 3];
                         [Demo.v 4; Demo.v 2; Demo.v 8]])
    by (split; [reflexivity | repeat constructor]).
  split; [lia|]. split; [lia|]. split; [exact H1|]. split; [exact H2|].
  destruct (@selective_filter_replaces_selected_cells
              Demo.ext 3 3 (Demo.v 5) 2 3 _ _ ltac:(lia) ltac:(lia) H1 H2)
    as (b' & r' & E & _).
  rewrite E. vm_compute in E. symmetry. exact E.
Defined.

(** ** Entrywise operations *)

Lemma nth_map2 {A B C} (f : A -> B -> C) (l : list A) (m : list B)
  (da : A) (db : B) (dc : C) (k : nat) :
  length l = length m -> k < length l ->
  nth k (map2 f l m) dc = f (nth k l da) (nth k m db).
Proof.
  intros Hlen Hk. unfold map2.
  rewrite (nth_map_lt _ _ (da, db)) by (rewrite length_combine; lia).
  rewrite combine_nth by exact Hlen. reflexivity.
Qed.

Lemma map2_2d_rect {A B C} (f : A -> B -> C) (h w : nat)
  (a : array2 A) (b : array2 B) :
  rect h w a -> rect h w b -> rect h w (map2_2d f a b).
Proof.
  intros Ha Hb. pose proof Ha as [La Fa]. pose proof Hb as [Lb Fb].
  unfold map2_2d. split.
  - rewrite length_map2; lia.
  - apply Forall_forall. intros r Hin.
    destruct (In_nth _ _ [] Hin) as (k & Hk & <-).
    rewrite length_map2 in Hk by lia.
    rewrite (@nth_map2 _ _ _ (map2 f) a b [] [] [] k) by lia.
    rewrite length_map2.
    + apply (rect_row Ha). lia.
    + rewrite (rect_row Ha), (rect_row Hb); lia.
Qed.

Lemma get2_map2_2d {A B C} (f : A -> B -> C) (h w : nat)
  (a : array2 A) (b : array2 B) (da : A) (db : B) (dc : C) (i j : nat) :
  rect h w a -> rect h w b -> i < h -> j < w ->
  get2 dc (map2_2d f a b) i j = f (get2 da a i j) (get2 db b i j).
Proof.
  intros Ha Hb Hi Hj. pose proof Ha as [La Fa]. pose proof Hb as [Lb Fb].
  unfold get2, map2_2d.
  rewrite (@nth_map2 _ _ _ (map2 f) a b [] [] [] i) by lia.
  apply nth_map2.
  - rewrite (rect_row Ha), (rect_row Hb); lia.
  - rewrite (rect_row Ha); lia.
Qed.

Lemma map_map_rect {A B} (f : A -> B) (h w : nat) (a : array2 A) :
  rect h w a -> rect h w (map (map f) a).
Proof.
  intros [Hl Hf]. split; [now rewrite length_map|].
  apply Forall_map. eapply Forall_impl; [|exact Hf].
  intros r Hr. cbv beta in *. now rewrite length_map.
Qed.

(** Boolean-mask assignment on arrays of one shape. *)
Lemma np_assign_mask_spec {A} (h w : nat) (a : array2 A) (m : array2 bool)
  (v : A) :
  rect h w a -> rect h w m -> 0 < h ->
  exists r,
    np_assign_mask a m v = Ok r /\ rect h w r /\
    forall i j d, i < h -> j < w ->
      get2 d r i j = if get2 false m i j then v else get2 d a i j.
Proof.
  intros Ha Hm Hh. unfold np_assign_mask.
  rewrite (rect_shape Ha Hh), (rect_shape Hm Hh).
  assert (E : shape_eqb (h, w) (h, w) = true) by now apply shape_eqb_eq.
  rewrite E. eexists. split; [reflexivity|]. unfold assign_where. split.
  - now apply map2_2d_rect.
  - intros i j d Hi Hj.
    apply (@get2_map2_2d _ _ _ (fun x (b : bool) => if b then v else x)
             h w a m d false d i j Ha Hm Hi Hj).
Qed.

(** ** The coverage mask held by the object *)

Lemma prepare_data_masks (d : array2 value) (ms : Masks) :
  snd (_prepare_data d ms) =
  if existsb (existsb id) (map (map isnan) d)
  then ior_total ms (map (map isnan) d) else ms.
Proof.
  unfold _prepare_data.
  match goal with
  | |- context [total_mask ?x] => destruct (total_mask x)
  end; reflexivity.
Qed.

(** [_prepare_data] leaves an absent coverage mask absent, and can only
    add true entries to a coverage mask that is present. *)
Lemma prepare_data_coverage (d : array2 value)
  (mk cv : option (array2 bool)) :
  let ms := {| m_mask := mk; m_coverage_mask := cv;
               m_total := _combine_masks mk cv |} in
  (cv = None -> m_coverage_mask (snd (_prepare_data d ms)) = None) /\
  (forall cm, cv = Some cm ->
     m_coverage_mask (snd (_prepare_data d ms)) = Some cm \/
     m_coverage_mask (snd (_prepare_data d ms))
     = Some (mask_or cm (map (map isnan) d))).
Proof.
  cbv zeta. rewrite prepare_data_masks.
  destruct (existsb (existsb id) (map (map isnan) d)).
  - unfold ior_total, _combine_masks. cbn [m_total m_mask m_coverage_mask].
    destruct mk as [m|], cv as [c|]; cbn; split; try discriminate;
      try reflexivity; intros cm H; injection H as <-; auto.
  - cbn. split; [tauto|]. intros cm H. now left.
Qed.

(** The attributes of a constructed object that come from the arguments. *)
Lemma init_ok_inv (ext : Externals) (s : store) (a : Args)
  (o : Background2D) :
  snd (__init__ ext s a) = Ok o ->
  exists c,
    init_config a = Ok c /\
    data o = fst (_prepare_data (a_data a) (c_masks c)) /\
    coverage_mask o
    = m_coverage_mask (snd (_prepare_data (a_data a) (c_masks c))) /\
    fill_value o = a_fill_value a /\
    interpolator o = a_interpolator a /\
    bkg_estimator o = bkg_estimator_of a /\
    bkgrms_estimator o = bkgrms_estimator_of a.
Proof.
  unfold __init__. destruct (init_config a) as [c|] eqn:Hc;
    cbn [snd]; [|discriminate].
  unfold init_stages. do 5 ok_stage.
  intros H. injection H as <-. exists c. cbn. repeat split.
Qed.

(** C9.  For a constructed object over an image of shape (h, w): when a
    coverage mask was supplied and the interpolator returns maps of the
    image shape, both maps are produced and hold the fill value at every
    position where the supplied coverage mask is true; when no coverage
    mask was supplied, with or without a source mask, both maps are the
    interpolator's output, unchanged. *)
Theorem coverage_mask_positions_hold_fill_value
  (ext : Externals) (s : store) (a : Args) (o : Background2D) (h w : nat) :
  snd (__init__ ext s a) = Ok o ->
  rect h w (a_data a) -> 0 < h ->
  (forall cm,
     a_coverage_mask a = Some cm -> rect h w cm ->
     rect h w (interpolator o (background_mesh o) (geometry o)) ->
     rect h w (interpolator o (background_rms_mesh o) (geometry o)) ->
     exists bkg rms,
       background o = Ok bkg /\ background_rms o = Ok rms /\
       rect h w bkg /\ rect h w rms /\
       forall i j, i < h -> j < w -> get2 false cm i j = true ->
         get2 nan bkg i j = a_fill_value a /\
         get2 nan rms i j = a_fill_value a) /\
  (a_coverage_mask a = None ->
   background o = Ok (interpolator o (background_mesh o) (geometry o)) /\
   background_rms o
   = Ok (interpolator o (background_rms_mesh o) (geometry o))).
Proof.
  intros Hinit Hdata Hh.
  destruct (init_ok_inv _ _ _ Hinit) as (c & Hc & _ & Hcov & Hfill & _).
  destruct (@init_config_inv a c Hc) as [Hms _].
  rewrite Hms in Hcov.
  destruct (prepare_data_coverage (a_data a) (a_mask a) (a_coverage_mask a))
    as [Hnone Hsome].
  cbv zeta in Hnone, Hsome. split.
  - intros cm Hcm Hrcm Hrb Hrr.
    assert (Hobj : exists cm',
               coverage_mask o = Some cm' /\ rect h w cm' /\
               forall i j, i < h -> j < w -> get2 false cm i j = true ->
                           get2 false cm' i j = true).
    { destruct (Hsome cm Hcm) as [E|E]; rewrite E in Hcov.
      - exists cm. auto.
      - exists (mask_or cm (map (map isnan) (a_data a))).
        assert (Hbad : rect h w (map (map isnan) (a_data a)))
          by now apply map_map_rect.
        split; [exact Hcov|]. split.
        + unfold mask_or. now apply map2_2d_rect.
        + intros i j Hi Hj Ht. unfold mask_or.
          rewrite (@get2_map2_2d _ _ _ orb h w cm _ false false false i j
                     Hrcm Hbad Hi Hj).
          now rewrite Ht. }
    destruct Hobj as (cm' & Ecov & Rcm' & Hsub).
    destruct (np_assign_mask_spec (fill_value o) Hrb Rcm' Hh)
      as (bkg & Eb & Rb & Gb).
    destruct (np_assign_mask_spec (fill_value o) Hrr Rcm' Hh)
      as (rms & Er & Rr & Gr).
    exists bkg, rms. unfold background, background_rms. rewrite Ecov.
    split; [exact Eb|]. split; [exact Er|]. split; [exact Rb|].
    split; [exact Rr|]. intros i j Hi Hj Ht.
    rewrite (Gb i j nan Hi Hj), (Gr i j nan Hi Hj).
    rewrite (Hsub i j Hi Hj Ht). now rewrite Hfill.
  - intros Hcm. unfold background, background_rms.
    rewrite Hcov, (Hnone Hcm). split; reflexivity.
Qed.

(** [Demo.img] with the coverage mask [Demo.cover]: the maps hold the fill
    value 0 at the covered position (0, 3). *)
Lemma coverage_mask_witness :
  exists o,
    snd (__init__ Demo.ext Demo.heap
           (Demo.args Demo.img [2]%Z [1]%Z 100 "pad" (Some Demo.cover) None))
    = Ok o /\
    rect 4 4 Demo.img /\ 0 < 4 /\
    exists bkg rms,
      background o = Ok bkg /\ background_rms o = Ok rms /\
      get2 nan bkg 0 3 = Demo.v 0 /\ get2 nan rms 0 3 = Demo.v 0.
Proof.
  eexists.
  match goal with
  | |- ?H1 /\ _ => assert (h1 : H1) by (vm_compute; reflexivity)
  end.
  assert (h2 : rect 4 4 Demo.img)
    by (split; [reflexivity | repeat constructor]).
  split; [exact h1|]. split; [exact h2|]. split; [lia|].
  destruct (@coverage_mask_positions_hold_fill_value
              Demo.ext Demo.heap _ _ 4 4 h1 h2 ltac:(lia)) as [Hcov _].
  destruct (Hcov Demo.cover eq_refl) as (bkg & rms & Eb & Er & _ & _ & Hfill).
  - split; [reflexivity | repeat constructor].
  - split; [reflexivity | vm_compute; repeat constructor].
  - split; [reflexivity | vm_compute; repeat constructor].
  - exists bkg, rms. split; [exact Eb|]. split; [exact Er|].
    apply (Hfill 0 3); [lia | lia | reflexivity].
Defined.

(** ** The estimator objects *)

(** A constructor call whose arguments are rejected leaves the store as it
    was. *)
Lemma init_rejected_store (ext : Externals) (s : store) (a : Args)
  (e : exn) :
  init_config a = Raise e -> __init__ ext s a = (s, Raise e).
Proof. intros H. unfold __init__. now rewrite H. Qed.

(** C10.  Once the arguments are processed, the constructor has set the
    [sigma_clip] attribute of both estimator objects to [None] in the store
    it leaves behind, before the stages run and whether or not they
    succeed; their call behaviour and every other object are unchanged.  An
    estimator argument that is left out denotes the one default object, so
    the assignment reaches the object shared by all such calls. *)
Theorem constructor_clears_estimator_sigma_clip
  (ext : Externals) (s : store) (a : Args) (c : Config) :
  init_config a = Ok c ->
  let s' := fst (__init__ ext s a) in
  est_sigma_clip (s' (bkg_estimator_of a)) = None /\
  est_sigma_clip (s' (bkgrms_estimator_of a)) = None /\
  (forall r, est_call (s' r) = est_call (s r)) /\
  (forall r, r <> bkg_estimator_of a -> r <> bkgrms_estimator_of a ->
             s' r = s r) /\
  snd (__init__ ext s a) = init_stages ext s' a c /\
  (forall o, snd (__init__ ext s a) = Ok o ->
             est_sigma_clip (s' (bkg_estimator o)) = None /\
             est_sigma_clip (s' (bkgrms_estimator o)) = None) /\
  (a_bkg_estimator a = None ->
   bkg_estimator_of a = default_bkg_estimator) /\
  (a_bkgrms_estimator a = None ->
   bkgrms_estimator_of a = default_bkgrms_estimator).
Proof.
  intros Hc. cbv zeta.
  assert (Hfst : fst (__init__ ext s a)
                 = setattr_sigma_clip
                     (setattr_sigma_clip s (bkg_estimator_of a) None)
                     (bkgrms_estimator_of a) None).
  { unfold __init__. rewrite Hc. reflexivity. }
  assert (Hsnd : snd (__init__ ext s a)
                 = init_stages ext (fst (__init__ ext s a)) a c).
  { rewrite Hfst. unfold __init__. rewrite Hc. reflexivity. }
  assert (H1 : est_sigma_clip (fst (__init__ ext s a) (bkg_estimator_of a))
               = None).
  { rewrite Hfst. unfold setattr_sigma_clip.
    destruct (bkg_estimator_of a =? bkgrms_estimator_of a); [reflexivity|].
    now rewrite Nat.eqb_refl. }
  assert (H2 : est_sigma_clip
                 (fst (__init__ ext s a) (bkgrms_estimator_of a)) = None).
  { rewrite Hfst. unfold setattr_sigma_clip. now rewrite Nat.eqb_refl. }
  split; [exact H1|]. split; [exact H2|]. split; [|split; [|split]].
  - intros r. rewrite Hfst. unfold setattr_sigma_clip.
    destruct (r =? bkgrms_estimator_of a); cbn;
      destruct (r =? bkg_estimator_of a); reflexivity.
  - intros r Hr1 Hr2. rewrite Hfst. unfold setattr_sigma_clip.
    apply Nat.eqb_neq in Hr1, Hr2. now rewrite Hr1, Hr2.
  - exact Hsnd.
  - split; [|split].
    + intros o Ho. destruct (init_ok_inv _ _ _ Ho)
        as (_ & _ & _ & _ & _ & _ & -> & ->).
      split; assumption.
    + unfold bkg_estimator_of. now intros ->.
    + unfold bkgrms_estimator_of. now intros ->.
Qed.

(** The estimators at references 5 and 6 of [Demo.heap] carry a sigma clip
    before the call and none after it. *)
Lemma constructor_clears_witness :
  exists c,
    init_config (Demo.args Demo.img_full [2]%Z [1]%Z 10 "pad" None None)
    = Ok c /\
    est_sigma_clip (Demo.heap 5) <> None /\
    est_sigma_clip (Demo.heap 6) <> None /\
    est_sigma_clip
      (fst (__init__ Demo.ext Demo.heap
              (Demo.args Demo.img_full [2]%Z [1]%Z 10 "pad" None None)) 5)
    = None /\
    est_sigma_clip
      (fst (__init__ Demo.ext Demo.heap
              (Demo.args Demo.img_full [2]%Z [1]%Z 10 "pad" None None)) 6)
    = None.
Proof.
  eexists.
  match goal with
  | |- ?H1 /\ _ => assert (h1 : H1) by (vm_compute; reflexivity)
  end.
  split; [exact h1|]. split; [discriminate|]. split; [discriminate|].
  destruct (@constructor_clears_estimator_sigma_clip
              Demo.ext Demo.heap _ _ h1) as (H1 & H2 & _).
  split; [exact H1 | exact H2].
Defined.
